(** * albatross: the stream collector and the archive consumer

    A shallow embedding of
      - [archive/management/commands/collector.py] (class [Command], the
        supervisor loop that starts, stops and regroups upstream streams), and
      - [archive/management/consumers.py] (class [ArchiveConsumer], the
        per-archive queue worker),
    followed by the properties proved about them.

    Conventions.  Time stamps are integers.  Python [int] is [Z].  A Python
    [dict] is an insertion-ordered association list.  Effects on the outside
    world (sleeping, connecting, saving, alerting, acknowledging) are recorded,
    oldest first, in a log carried by the state.  A query set is a filter
    over the rows the store holds when the code first reads it; within one
    pass of the collector's loop nothing else writes the store.  Left out:
    the verbosity file, what is written to stdout or to the logger, signal
    handling and the end of the process after [exit] has closed the
    streams. *)

From Stdlib Require Import ZArith List Bool String Lia.
Import ListNotations.
Local Open Scope Z_scope.
Set Warnings "-register-all".

(** ** Python dictionaries *)

Section Dict.
Context {K V : Type}.
Variable eqb : K -> K -> bool.

(** [k in d] *)
Definition dict_mem (k : K) (d : list (K * V)) : bool :=
  existsb (fun kv => eqb k (fst kv)) d.

(** [d[k]] when present *)
Fixpoint dict_get (k : K) (d : list (K * V)) : option V :=
  match d with
  | [] => None
  | (k', v) :: d' => if eqb k k' then Some v else dict_get k d'
  end.

(** [d[k] = v]: an existing key keeps its place (and its key object) *)
Fixpoint dict_set (k : K) (v : V) (d : list (K * V)) : list (K * V) :=
  match d with
  | [] => [(k, v)]
  | (k', v') :: d' =>
      if eqb k k' then (k', v) :: d' else (k', v') :: dict_set k v d'
  end.

(** [del d[k]] *)
Definition dict_del (k : K) (d : list (K * V)) : list (K * V) :=
  filter (fun kv => negb (eqb k (fst kv))) d.
End Dict.

(** * The collector *)

Module Collector.

(** Class constants of [Command]. *)
Definition LOOP_TIME : Z := 1.
Definition CHILL_TIME : Z := 30.
Definition LISTENER_WAIT_TIME : Z := 5.

(** [users.models.User]: the fields the collector reads. *)
Record User := mkUser { user_pk : Z; status : Z }.

(** [archive.models.Archive]: the fields the collector reads and writes.
    [stopped] is nullable. *)
Record Archive := mkArchive {
  pk : Z;
  user : User;
  query : string;
  started : Z;
  stopped : option Z;
  is_running : bool
}.

(** A [tweepy.Stream] with its [StreamArchiver] listener: the [running] flag
    and [listener.channels], each channel holding its ["archive"]. *)
Record Stream := mkStream { running : bool; channels : list Archive }.

(** Effects on the outside world. *)
Inductive Event :=
| Sleep (seconds : Z)                       (* time.sleep *)
| Disconnect (u : User)                     (* self.streams[u].disconnect() *)
| CloseLog (u : User)                       (* ...listener.close_log() *)
| Filter (u : User) (track : list string)   (* ...filter(track=...) returned *)
| Alert (u : User)                          (* self._alert(...) *)
| Save (a : Z) (flag : bool).               (* archive.save of is_running *)

(** What happens inside the [try] block of [adjust_connections]. *)
Inductive Opening :=
| Refused   (* [_authenticate] or the [Stream] constructor raised *)
| Broken    (* the stream was stored in [self.streams], then [filter] raised *)
| Opened.   (* [filter] returned: the stream runs *)

(** The command object together with the store it queries.  [objects] is the
    table behind [Archive.objects]; [log] is the record of effects. *)
Record Command := mkCommand {
  objects : list Archive;
  tracking : list Archive;
  streams : list (User * Stream);
  first_pass_completed : bool;
  log : list Event
}.

(** [Command.__init__] over a given store. *)
Definition init (store : list Archive) : Command :=
  mkCommand store [] [] false [].

Definition set_objects (o : list Archive) (s : Command) : Command :=
  mkCommand o (tracking s) (streams s) (first_pass_completed s) (log s).
Definition set_tracking (t : list Archive) (s : Command) : Command :=
  mkCommand (objects s) t (streams s) (first_pass_completed s) (log s).
Definition set_streams (m : list (User * Stream)) (s : Command) : Command :=
  mkCommand (objects s) (tracking s) m (first_pass_completed s) (log s).
Definition set_first_pass_completed (b : bool) (s : Command) : Command :=
  mkCommand (objects s) (tracking s) (streams s) b (log s).
Definition emit (e : Event) (s : Command) : Command :=
  mkCommand (objects s) (tracking s) (streams s) (first_pass_completed s)
            (log s ++ [e]).

(** Django compares model instances by primary key. *)
Definition user_eqb (u v : User) : bool := user_pk u =? user_pk v.
Definition archive_eqb (a b : Archive) : bool := pk a =? pk b.

(** *** Query sets *)

Definition exclude (p : Archive -> bool) (q : list Archive) : list Archive :=
  filter (fun a => negb (p a)) q.

Definition pk__in (pks : list Z) (a : Archive) : bool :=
  existsb (Z.eqb (pk a)) pks.
Definition started__lte (now : Z) (a : Archive) : bool := started a <=? now.
Definition stopped__gt (now : Z) (a : Archive) : bool :=
  match stopped a with Some t => now <? t | None => false end.
Definition stopped__isnull (a : Archive) : bool :=
  match stopped a with Some _ => false | None => true end.
Definition stopped__lte (now : Z) (a : Archive) : bool :=
  match stopped a with Some t => t <=? now | None => false end.
Definition is_running_is (b : bool) (a : Archive) : bool :=
  Bool.eqb (is_running a) b.
Definition user__status (st : Z) (a : Archive) : bool :=
  status (user a) =? st.

Definition set_is_running (b : bool) (a : Archive) : Archive :=
  mkArchive (pk a) (user a) (query a) (started a) (stopped a) b.

(** [archive.save(update_fields=("is_running",))]: the row with that primary
    key gets the flag. *)
Definition save (a : Archive) (s : Command) : Command :=
  emit (Save (pk a) (is_running a))
    (set_objects
       (map (fun r => if pk r =? pk a then set_is_running (is_running a) r
                      else r)
            (objects s)) s).

(** [list.remove]: the first equal element goes. *)
Fixpoint list_remove (a : Archive) (l : list Archive) : list Archive :=
  match l with
  | [] => []
  | x :: l' => if archive_eqb x a then l' else x :: list_remove a l'
  end.

Definition start_tracking (archive : Archive) (s : Command) : Command :=
  let archive' := set_is_running true archive in
  let s :=
    if existsb (archive_eqb archive) (tracking s) then s
    else set_tracking (tracking s ++ [archive']) s in
  save archive' s.

Definition stop_tracking (archive : Archive) (s : Command) : Command :=
  let s :=
    if existsb (archive_eqb archive) (tracking s)
    then set_tracking (list_remove archive (tracking s)) s
    else s in
  save (set_is_running false archive) s.

(** The primary keys gathered by the loop of [_handle_restarts]. *)
Definition to_restart (s : Command) : list Z :=
  flat_map (fun us => if running (snd us) then []
                      else map pk (channels (snd us)))
           (streams s).

Definition _handle_restarts (to_start : list Archive) (s : Command)
  : list Archive * Command :=
  match to_restart s with
  | [] => (to_start, s)
  | ids =>
      let s := emit (Sleep CHILL_TIME) s in
      (filter (pk__in (map pk to_start ++ ids)) (objects s), s)
  end.

Section Externals.
(** [User.STATUS_DISABLED], declared in [users.models]. *)
Variable STATUS_DISABLED : Z.
(** The outcome of authenticating and connecting for an owner. *)
Variable connect : User -> list Archive -> Opening.

Definition _get_archives_to_start (now : Z) (s : Command)
  : list Archive * Command :=
  let r := exclude (pk__in (map pk (tracking s)))
                   (filter (started__lte now) (objects s)) in
  let '(r, s) :=
    if first_pass_completed s
    then (exclude (is_running_is false) r, set_first_pass_completed true s)
    else (r, s) in
  let '(q, s) :=
    _handle_restarts
      (filter (fun a => stopped__gt now a || stopped__isnull a) r) s in
  (exclude (user__status STATUS_DISABLED) q, s).

(** One round of the first loop of [adjust_connections]. *)
Definition kill (u : User) (s : Command) : Command :=
  if dict_mem user_eqb u (streams s)
  then set_streams (dict_del user_eqb u (streams s))
         (emit (CloseLog u) (emit (Disconnect u) s))
  else s.

(** One round of the regrouping loop. *)
Definition regroup (users_adjusting : list User)
           (groups : list (User * list Archive)) (archive : Archive)
  : list (User * list Archive) :=
  if existsb (user_eqb (user archive)) users_adjusting
  then
    let groups :=
      if dict_mem user_eqb (user archive) groups then groups
      else dict_set user_eqb (user archive) [] groups in
    match dict_get user_eqb (user archive) groups with
    | Some l => dict_set user_eqb (user archive) (l ++ [archive]) groups
    | None => groups
    end
  else groups.

(** One round of the last loop: the [try] block, then the wait. *)
Definition open (ua : User * list Archive) (s : Command) : Command :=
  let '(u, archives) := ua in
  let s :=
    match connect u archives with
    | Refused => emit (Alert u) s
    | Broken =>
        emit (Alert u)
          (set_streams
             (dict_set user_eqb u (mkStream false archives) (streams s)) s)
    | Opened =>
        emit (Filter u (nodup string_dec (map query archives)))
          (set_streams
             (dict_set user_eqb u (mkStream true archives) (streams s)) s)
    end in
  emit (Sleep LISTENER_WAIT_TIME) s.

Definition adjust_connections (to_start to_stop : list Archive)
           (s : Command) : Command :=
  let users_adjusting := map user (to_start ++ to_stop) in
  let s := fold_left (fun s u => kill u s) users_adjusting s in
  let s := fold_left (fun s a => stop_tracking a s) to_stop s in
  let s := fold_left (fun s a => start_tracking a s) to_start s in
  let groups := fold_left (regroup users_adjusting) (tracking s) [] in
  fold_left (fun s ua => open ua s) groups s.

(** The body of [while True] in [loop], entered at time [now]. *)
Definition tick (now : Z) (s : Command) : Command :=
  let '(to_start, s) := _get_archives_to_start now s in
  let to_stop :=
    filter (fun a => stopped__lte now a && is_running_is true a)
           (objects s) in
  let s :=
    match to_start ++ to_stop with
    | [] => s
    | _ => adjust_connections to_start to_stop s
    end in
  emit (Sleep LOOP_TIME) s.

(** The first iterations of [loop], one per clock reading. *)
Fixpoint loop (clock : list Z) (s : Command) : Command :=
  match clock with
  | [] => s
  | now :: clock' => loop clock' (tick now s)
  end.
End Externals.

(** [exit]: every registered stream is disconnected and its log closed, in
    the order of the registry, which is left as it is; the process then
    ends. *)
Definition exit (s : Command) : Command :=
  fold_left (fun s (us : User * Stream) =>
               emit (CloseLog (fst us)) (emit (Disconnect (fst us)) s))
            (streams s) s.

(** The owners holding an upstream connection after the effects [evs],
    when [live] held one before: [Filter] opens a connection, [Disconnect]
    closes one. *)
Fixpoint remove_first (k : Z) (l : list Z) : list Z :=
  match l with
  | [] => []
  | x :: l' => if x =? k then l' else x :: remove_first k l'
  end.

Definition live_step (live : list Z) (e : Event) : list Z :=
  match e with
  | Disconnect u => remove_first (user_pk u) live
  | Filter u _ => user_pk u :: live
  | _ => live
  end.

Definition live_after (live : list Z) (evs : list Event) : list Z :=
  fold_left live_step evs live.

(** ** Properties of states and logs *)

(** The owners (by primary key) that have an entry in a dictionary keyed by
    user, such as [self.streams]. *)
Definition owners {V} (m : list (User * V)) : list Z :=
  map (fun kv => user_pk (fst kv)) m.

(** The owners holding an upstream connection after the whole log of [s];
    the process starts with none. *)
Definition live (s : Command) : list Z := live_after [] (log s).

(** The registry agrees with the connections: one entry per owner, and
    every connection belongs to an entry. *)
Record registry_ok (s : Command) : Prop := {
  live_nodup : NoDup (live s);
  owners_nodup : NoDup (owners (streams s));
  live_registered : incl (live s) (owners (streams s))
}.

(** [s'] continues the log of [s], and no point of the continuation has two
    connections of one owner. *)
Definition extends_ok (s s' : Command) : Prop :=
  exists evs, log s' = log s ++ evs /\
    forall p r, evs = p ++ r -> NoDup (live_after [] (log s ++ p)).

(** A step that keeps the agreement and writes only such points. *)
Definition ok_step (s s' : Command) : Prop :=
  registry_ok s -> registry_ok s' /\ extends_ok s s'.

(** Events that neither open nor close a connection. *)
Definition quiet (e : Event) : Prop :=
  match e with Disconnect _ | Filter _ _ => False | _ => True end.

(** The keys of [groups] are distinct users, all of them adjusting. *)
Definition groups_ok (users_adjusting : list User)
           (groups : list (User * list Archive)) : Prop :=
  NoDup (owners groups) /\
  forall k, In k (owners groups) ->
            exists v, In v users_adjusting /\ user_pk v = k.

(** The archives that pass the filters applied before [_handle_restarts]. *)
Definition due (now : Z) (s : Command) : list Archive :=
  filter (fun a => stopped__gt now a || stopped__isnull a)
    ((if first_pass_completed s then exclude (is_running_is false)
      else fun q => q)
       (exclude (pk__in (map pk (tracking s)))
                (filter (started__lte now) (objects s)))).

(** The three kinds of effects [adjust_connections] has, in the order it
    has them. *)
Definition is_kill (e : Event) : Prop :=
  match e with Disconnect _ | CloseLog _ => True | _ => False end.
Definition is_save (e : Event) : Prop :=
  match e with Save _ _ => True | _ => False end.
Definition is_open (e : Event) : Prop :=
  match e with Filter _ _ | Alert _ | Sleep _ => True | _ => False end.

(** The owners a connection is opened for in [evs]. *)
Definition opened (evs : list Event) : list Z :=
  flat_map (fun e => match e with Filter u _ => [user_pk u] | _ => [] end) evs.

(** The store's rows are keyed by [pk]; the tracked list holds each archive
    once; a tracked archive is marked running in the store and has the owner
    the store gives it; every channel of a registered stream carries a
    tracked archive of the owner the stream is registered under. *)
Record consistent (s : Command) : Prop := {
  objects_pk : NoDup (map pk (objects s));
  tracking_pk : NoDup (map pk (tracking s));
  tracked_running : forall t a,
    In t (tracking s) -> In a (objects s) -> pk a = pk t ->
    is_running a = true /\ user_pk (user a) = user_pk (user t);
  channels_tracked : forall u st c,
    In (u, st) (streams s) -> In c (channels st) ->
    exists t, In t (tracking s) /\ pk t = pk c /\
              user_pk (user t) = user_pk u
}.

(** No row of the store with key [k] is marked running. *)
Definition not_running (k : Z) (s : Command) : Prop :=
  forall r, In r (objects s) -> pk r = k -> is_running r = false.

(** No tracked archive has key [k]. *)
Definition untracked (k : Z) (s : Command) : Prop :=
  ~ In k (map pk (tracking s)).

(** No channel of a registered stream carries an archive with key [k]. *)
Definition unbound (k : Z) (s : Command) : Prop :=
  forall u st c, In (u, st) (streams s) -> In c (channels st) -> pk c <> k.

(** Every archive of a group is tracked and owned by the group's key. *)
Definition members_ok (tracked : list Archive)
           (groups : list (User * list Archive)) : Prop :=
  forall u l x, In (u, l) groups -> In x l ->
                In x tracked /\ user_pk (user x) = user_pk u.

(** The archive with key [k] has been let go of. *)
Definition released (k : Z) (s' : Command) : Prop :=
  not_running k s' /\ untracked k s' /\ unbound k s'.

(** What a row of the store never loses: its key and its owner. *)
Definition identity (a : Archive) : Z * User := (pk a, user a).

(** The part of consistency that speaks of the store and the tracked list,
    relative to the store [o] the tick began with. *)
Record tracked_ok (o : list Archive) (s : Command) : Prop := {
  same_rows : map identity (objects s) = map identity o;
  tracked_once : NoDup (map pk (tracking s));
  tracked_marked : forall t a,
    In t (tracking s) -> In a (objects s) -> pk a = pk t ->
    is_running a = true /\ user_pk (user a) = user_pk (user t)
}.

(** An attempt to open a connection: it went through or was alerted. *)
Definition is_attempt (e : Event) : Prop :=
  match e with Filter _ _ | Alert _ => True | _ => False end.

(** Everything in a row but its flag. *)
Definition unflagged (a : Archive) : Archive := set_is_running false a.

(** The archives of [l] owned by [u]. *)
Definition owned_by (u : User) (l : list Archive) : list Archive :=
  filter (fun a => user_eqb (user a) u) l.

(** No archive of the store starts or stops between the two times. *)
Definition same_windows (now now' : Z) (store : list Archive) : Prop :=
  forall a, In a store ->
    (started a <= now <-> started a <= now') /\
    (forall t, stopped a = Some t -> (t <= now <-> t <= now')).

(** The effect of the [try] block of [adjust_connections] for one group. *)
Definition attempt (connect : User -> list Archive -> Opening)
           (ua : User * list Archive) : Event :=
  match connect (fst ua) (snd ua) with
  | Opened => Filter (fst ua) (nodup string_dec (map query (snd ua)))
  | _ => Alert (fst ua)
  end.

(** Every attempt in [evs] is followed at once by the listener wait. *)
Fixpoint paced (evs : list Event) : Prop :=
  match evs with
  | [] => True
  | e :: r =>
      (is_attempt e -> exists r', r = Sleep LISTENER_WAIT_TIME :: r') /\
      paced r
  end.

(** The entry a dictionary keyed by user holds for [u]: the key object it
    was first set with, and the value. *)
Definition dict_item {V} (u : User) (m : list (User * V))
  : option (User * V) :=
  find (fun kv => user_eqb u (fst kv)) m.

(** The group of an owner after the archives [l] were appended to it. *)
Definition merge (o : option (User * list Archive)) (l : list Archive)
  : option (User * list Archive) :=
  match l with
  | [] => o
  | a :: _ =>
      Some match o with
           | Some (k, l0) => (k, l0 ++ l)
           | None => (user a, l)
           end
  end.

(** The stream registered by one round of the last loop of
    [adjust_connections], if any. *)
Definition registered (connect : User -> list Archive -> Opening)
           (ua : User * list Archive) : option Stream :=
  match connect (fst ua) (snd ua) with
  | Opened => Some (mkStream true (snd ua))
  | Broken => Some (mkStream false (snd ua))
  | Refused => None
  end.

(** ** Sample data *)

(** A value for [User.STATUS_DISABLED], an enabled and a disabled user, and
    an upstream that always connects. *)
Definition DISABLED : Z := 0.

Definition alice : User := mkUser 1 1.

Definition bob : User := mkUser 2 DISABLED.

Definition connected (u : User) (archives : list Archive) : Opening := Opened.

(** An upstream whose [filter] always raises. *)
Definition broken (u : User) (archives : list Archive) : Opening := Broken.

(** An archive whose window opens at 5, never marked running. *)
Definition pending : Archive := mkArchive 3 alice "rocq" 5 None false.

(** Two running, tracked archives whose stream has died. *)
Definition cats (owner : User) : Archive :=
  mkArchive 7 owner "cats" 0 None true.

Definition dogs (owner : User) : Archive :=
  mkArchive 9 owner "dogs" 0 None true.

Definition died (owner : User) : Command :=
  mkCommand [cats owner; dogs owner] [cats owner; dogs owner]
            [(owner, mkStream false [cats owner; dogs owner])] false [].

(** A tracked archive bound to a dead stream; its window opens at 50 and
    closed at 5. *)
Definition odd : Archive := mkArchive 7 alice "cats" 50 (Some 5) true.

Definition odd_died : Command :=
  mkCommand [odd] [odd] [(alice, mkStream false [odd])] false [].

(** A tracked archive whose window closed at 5, on a stream that runs or
    has died. *)
Definition closing : Archive := mkArchive 7 alice "cats" 0 (Some 5) true.

Definition closing_on (alive : bool) : Command :=
  mkCommand [closing] [closing] [(alice, mkStream alive [closing])] false [].

(** Two archives of one owner with overlapping windows [0, 100) and
    [5, 50). *)
Definition early : Archive := mkArchive 1 alice "tea" 0 (Some 100) false.

Definition late : Archive := mkArchive 2 alice "milk" 5 (Some 50) false.

(** An upstream that refuses every owner: authenticating raises. *)
Definition refusing (u : User) (archives : list Archive) : Opening := Refused.

(** An archive of a disabled owner, never started. *)
Definition idle : Archive := mkArchive 4 bob "tea" 0 None false.

End Collector.

(** * The archive consumer *)

Module Consumers.

(** Seconds between two distillations. *)
Definition DISTILLATION_WINDOW : Z := 60 * 5.

(** What [json.loads] (and the queue's JSON decoder) returns. *)
Inductive Json :=
| JNull
| JBool (b : bool)
| JNumber (n : Z)
| JString (s : string)
| JArray (items : list Json)
| JObject (members : list (string * Json)).

(** Instances of [Exception], which is what [except Exception] catches. *)
Inductive Exception :=
| ValueError
| AttributeError
| OtherError (name : string).

(** The six parsers of a consumer: [self.raw], [self.cloud], ... *)
Inductive Parser := Raw | Cloud | Images | Map | Search | Statistics.

Definition Parser_eqb (p q : Parser) : bool :=
  match p, q with
  | Raw, Raw | Cloud, Cloud | Images, Images | Map, Map
  | Search, Search | Statistics, Statistics => true
  | _, _ => false
  end.

(** Effects on the outside world. *)
Inductive Event :=
| Collect (p : Parser) (tweet : Json)   (* self.<p>.collect(tweet) was called *)
| Generate (p : Parser)                 (* self.<p>.generate() was called *)
| Ack (message : Z)                     (* message.ack() returned *)
| Alert (e : Exception)                 (* self._alert(..., e) *)
| Sleep (seconds : Z)                   (* time.sleep *)
| SaveDistillation                      (* self.archive.save(...) *)
| Qos (prefetch_count : Z).             (* channel.basic_qos(0, n, False) *)

Section Worker.
(** The parsers of [archive.parsers], the JSON decoder, the broker and
    the archive's size computation are outside this file. *)
Context {Aggregate : Type}.   (* the state held by a parser object *)
Context {Snapshot : Type}.    (* what [generate] returns *)
(** [collect]: the parser's new state and the exception it raised, if any. *)
Variable collect : Parser -> Aggregate -> Json -> Aggregate * option Exception.
(** [generate]: the new state and the snapshot returned or exception raised. *)
Variable generate : Parser -> Aggregate -> Aggregate * (Exception + Snapshot).
(** [aggregate["total"]] of a statistics parser. *)
Variable total_of : Aggregate -> Z.
(** [json.loads]: [None] when it raises [ValueError]. *)
Variable loads : string -> option Json.
(** [message.ack()]: the exception it raised, if any. *)
Variable ack : Z -> option Exception.

(** [archive.models.Archive]: the fields the consumer reads and writes. *)
Record Archive := mkArchive {
  pk : Z;
  query : string;
  allow_consumption : bool;
  allow_search : bool;
  total : Z;
  size : Z;
  cloud : option Snapshot;
  cloud_generated : option Z;
  statistics : option Snapshot;
  statistics_generated : option Z;
  images : option Snapshot;
  images_generated : option Z
}.

(** [archive.calculate_size()] *)
Variable calculate_size : Archive -> Z.

Record ArchiveConsumer := mkConsumer {
  archive : Archive;
  parser : Parser -> Aggregate;
  is_stopped : bool;
  last_distilled : Z;
  should_stop : bool;
  log : list Event
}.

(** *** Computations that may raise *)

Inductive outcome (A : Type) :=
| Return (a : A) (c : ArchiveConsumer)
| Raise (e : Exception) (c : ArchiveConsumer).
Arguments Return {A} a c.
Arguments Raise {A} e c.

Definition M (A : Type) := ArchiveConsumer -> outcome A.

Definition ret {A} (a : A) : M A := fun c => Return a c.
Definition raise {A} (e : Exception) : M A := fun c => Raise e c.
Definition bind {A B} (m : M A) (k : A -> M B) : M B :=
  fun c => match m c with
           | Return a c' => k a c'
           | Raise e c' => Raise e c'
           end.
Definition modify (f : ArchiveConsumer -> ArchiveConsumer) : M unit :=
  fun c => Return tt (f c).
Definition gets {A} (f : ArchiveConsumer -> A) : M A :=
  fun c => Return (f c) c.

Notation "x <- m ;; k" := (bind m (fun x => k))
  (at level 61, m at next level, right associativity).
Notation "m ;; k" := (bind m (fun _ => k))
  (at level 61, right associativity).

(** The state a computation ends in, returned or raised, and the exception
    it raised, if any. *)
Definition final {A} (o : outcome A) : ArchiveConsumer :=
  match o with Return _ c => c | Raise _ c => c end.
Definition raised {A} (o : outcome A) : option Exception :=
  match o with Return _ _ => None | Raise e _ => Some e end.

(** *** Field updates *)

Definition set_archive (a : Archive) (c : ArchiveConsumer) :=
  mkConsumer a (parser c) (is_stopped c) (last_distilled c) (should_stop c)
             (log c).
Definition set_parser (p : Parser) (a : Aggregate) (c : ArchiveConsumer) :=
  mkConsumer (archive c)
             (fun q => if Parser_eqb q p then a else parser c q)
             (is_stopped c) (last_distilled c) (should_stop c) (log c).
Definition set_is_stopped (b : bool) (c : ArchiveConsumer) :=
  mkConsumer (archive c) (parser c) b (last_distilled c) (should_stop c)
             (log c).
Definition set_last_distilled (t : Z) (c : ArchiveConsumer) :=
  mkConsumer (archive c) (parser c) (is_stopped c) t (should_stop c) (log c).
Definition set_should_stop (b : bool) (c : ArchiveConsumer) :=
  mkConsumer (archive c) (parser c) (is_stopped c) (last_distilled c) b
             (log c).
Definition emit (e : Event) (c : ArchiveConsumer) :=
  mkConsumer (archive c) (parser c) (is_stopped c) (last_distilled c)
             (should_stop c) (log c ++ [e]).

Definition set_total (n : Z) (a : Archive) :=
  mkArchive (pk a) (query a) (allow_consumption a) (allow_search a) n
            (size a) (cloud a) (cloud_generated a) (statistics a)
            (statistics_generated a) (images a) (images_generated a).
Definition set_size (n : Z) (a : Archive) :=
  mkArchive (pk a) (query a) (allow_consumption a) (allow_search a)
            (total a) n (cloud a) (cloud_generated a) (statistics a)
            (statistics_generated a) (images a) (images_generated a).
Definition set_cloud (x : Snapshot) (t : Z) (a : Archive) :=
  mkArchive (pk a) (query a) (allow_consumption a) (allow_search a)
            (total a) (size a) (Some x) (Some t) (statistics a)
            (statistics_generated a) (images a) (images_generated a).
Definition set_statistics (x : Snapshot) (t : Z) (a : Archive) :=
  mkArchive (pk a) (query a) (allow_consumption a) (allow_search a)
            (total a) (size a) (cloud a) (cloud_generated a) (Some x)
            (Some t) (images a) (images_generated a).
Definition set_images (x : Snapshot) (t : Z) (a : Archive) :=
  mkArchive (pk a) (query a) (allow_consumption a) (allow_search a)
            (total a) (size a) (cloud a) (cloud_generated a) (statistics a)
            (statistics_generated a) (Some x) (Some t).

Definition on_archive (f : Archive -> Archive) : M unit :=
  modify (fun c => set_archive (f (archive c)) c).

(** *** Calls into the outside world *)

(** [self.<p>.collect(tweet)] *)
Definition call_collect (p : Parser) (tweet : Json) : M unit :=
  fun c =>
    let '(a, r) := collect p (parser c p) tweet in
    let c := emit (Collect p tweet) (set_parser p a c) in
    match r with
    | None => Return tt c
    | Some e => Raise e c
    end.

(** [self.<p>.generate()] *)
Definition call_generate (p : Parser) : M Snapshot :=
  fun c =>
    let '(a, r) := generate p (parser c p) in
    let c := emit (Generate p) (set_parser p a c) in
    match r with
    | inr x => Return x c
    | inl e => Raise e c
    end.

(** [message.ack()] *)
Definition call_ack (message : Z) : M unit :=
  fun c =>
    match ack message with
    | None => Return tt (emit (Ack message) c)
    | Some e => Raise e c
    end.

(** *** The methods of [ArchiveConsumer] *)

(** [get_consumers]: the queues bound, by archive id. *)
Definition get_consumers (c : ArchiveConsumer) : list Z :=
  if negb (allow_consumption (archive c)) then [] else [pk (archive c)].

(** [now] is the reading of [timezone.now()] at the top of the method. *)
Definition _write_distillations (now : Z) : M unit :=
  modify (set_last_distilled now) ;;
  call_generate Raw ;;
  call_generate Map ;;
  x <- call_generate Cloud ;;
  on_archive (set_cloud x now) ;;
  x <- call_generate Statistics ;;
  on_archive (set_statistics x now) ;;
  x <- call_generate Images ;;
  on_archive (set_images x now) ;;
  n <- gets (fun c => total_of (parser c Statistics)) ;;
  on_archive (set_total n) ;;
  on_archive (fun a => set_size (calculate_size a) a) ;;
  modify (emit SaveDistillation).

(** [now] is the clock reading taken after the acknowledgement, [later]
    the one a distillation takes when it runs. *)
Definition _process_message (now later : Z) (tweet : Json) (message : Z)
  : M unit :=
  on_archive (fun a => set_total (total a + 1) a) ;;
  call_collect Raw tweet ;;
  call_collect Cloud tweet ;;
  call_collect Images tweet ;;
  call_collect Statistics tweet ;;
  call_collect Map tweet ;;
  allowed <- gets (fun c => allow_search (archive c)) ;;
  (if allowed then call_collect Search tweet else ret tt) ;;
  call_ack message ;;
  last <- gets last_distilled ;;
  if DISTILLATION_WINDOW <? now - last
  then _write_distillations later
  else ret tt.

Definition callback (now later : Z) (tweet : Json) (message : Z) : M unit :=
  fun c =>
    match _process_message now later tweet message c with
    | Return _ c' => Return tt c'
    | Raise e c' =>
        Return tt (set_should_stop true (emit (Sleep 1) (emit (Alert e) c')))
    end.

(** [dict.get] on the decoded members. *)
Fixpoint members_get (key : string) (members : list (string * Json)) : Json :=
  match members with
  | [] => JNull
  | (k, v) :: rest => if String.eqb k key then v else members_get key rest
  end.

(** Returns [last_tweet_time]. *)
Definition _parse_line (line : string) : M Json :=
  match loads line with
  | None => ret (JString EmptyString)      (* except ValueError: pass *)
  | Some tweet =>
      match tweet with
      | JObject members =>
          call_collect Map tweet ;;
          call_collect Cloud tweet ;;
          call_collect Images tweet ;;
          call_collect Statistics tweet ;;
          allowed <- gets (fun c => allow_search (archive c)) ;;
          (if allowed then call_collect Search tweet else ret tt) ;;
          ret (members_get "created_at" members)
      | _ => raise AttributeError          (* tweet.get on a non-dict *)
      end
  end.

(** The [for] loop of [_compile_aggregates]; [true] when it took the
    early [return]. *)
Fixpoint replay (lines : list string) : M bool :=
  match lines with
  | [] => ret false
  | line :: rest =>
      stop <- gets should_stop ;;
      if stop then ret true
      else (_parse_line line ;; replay rest)
  end.

(** [lines] is what [self.archive.get_tweets()] yields. *)
Definition _compile_aggregates (lines : list string) : M unit :=
  on_archive (set_total 0) ;;
  returned <- replay lines ;;
  if returned then ret tt
  else
    n <- gets (fun c => total_of (parser c Statistics)) ;;
    on_archive (set_total n).

Definition on_consume_ready (lines : list string) : M unit :=
  _compile_aggregates lines ;;
  modify (emit (Qos 1)).

Definition on_consume_end (now : Z) : M unit :=
  _write_distillations now ;;
  modify (set_is_stopped true).

(** *** Properties of logs, parsers and workers *)

(** The [collect] calls one record gets during replay, in order. *)
Definition feed (allow_search : bool) (tweet : Json) : list Event :=
  [Collect Map tweet; Collect Cloud tweet; Collect Images tweet;
   Collect Statistics tweet]
  ++ (if allow_search then [Collect Search tweet] else []).

(** A well-formed line decodes to a JSON object; a malformed one makes
    [json.loads] raise [ValueError]. *)
Definition is_record (line : string) : bool :=
  match loads line with Some (JObject _) => true | _ => false end.

Definition well_formed (line : string) : Prop :=
  exists members, loads line = Some (JObject members).

Definition malformed (line : string) : Prop := loads line = None.

(** The [collect] calls a whole record log gets. *)
Definition replayed (allow_search : bool) (lines : list string) : list Event :=
  flat_map (fun line => match loads line with
                        | Some (JObject members) =>
                            feed allow_search (JObject members)
                        | _ => []
                        end) lines.

(** No parser raises on a JSON object. *)
Definition accepting : Prop :=
  forall p a members, snd (collect p a (JObject members)) = None.

(** The statistics parser counts the records it collects. *)
Definition counting : Prop :=
  forall a tweet, total_of (fst (collect Statistics a tweet)) = total_of a + 1.

(** [generate] returns, the statistics count survives it, and the broker
    takes every acknowledgement. *)
Definition generating : Prop :=
  forall p a, exists x, snd (generate p a) = inr x.

Definition steady : Prop :=
  forall a, total_of (fst (generate Statistics a)) = total_of a.

Definition acking : Prop := forall message, ack message = None.

(** The archive's [total] agrees with the statistics parser. *)
Definition in_step (c : ArchiveConsumer) : Prop :=
  total (archive c) = total_of (parser c Statistics).

(** One delivery: the two clock readings, the decoded payload and the
    message. *)
Definition Delivery : Type := Z * Z * Json * Z.

(** Messages handed to [_process_message] one at a time. *)
Fixpoint process_all (deliveries : list Delivery) : M unit :=
  match deliveries with
  | [] => ret tt
  | (now, later, tweet, message) :: rest =>
      _process_message now later tweet message ;; process_all rest
  end.
(** The [collect] calls one delivered message gets, in order. *)
Definition live_feed (allow_search : bool) (tweet : Json) : list Event :=
  [Collect Raw tweet; Collect Cloud tweet; Collect Images tweet;
   Collect Statistics tweet; Collect Map tweet]
  ++ (if allow_search then [Collect Search tweet] else []).

(** The effects of a distillation that runs to its end. *)
Definition distillation : list Event :=
  [Generate Raw; Generate Map; Generate Cloud; Generate Statistics;
   Generate Images; SaveDistillation].

Definition is_collect (e : Event) : Prop :=
  match e with Collect _ _ => True | _ => False end.

Definition is_distil (e : Event) : Prop :=
  match e with Generate _ | SaveDistillation => True | _ => False end.

(** A line that decodes, but not to a JSON object. *)
Definition not_a_record (line : string) : Prop :=
  exists tweet, loads line = Some tweet /\
                forall members, tweet <> JObject members.


End Worker.

Arguments Return {Aggregate Snapshot A} a c.
Arguments Raise {Aggregate Snapshot A} e c.
Arguments Archive : clear implicits.
Arguments ArchiveConsumer : clear implicits.
Arguments outcome : clear implicits.
Arguments M : clear implicits.

(** ** Sample parsers, decoder, broker and worker *)

(** Parsers that count what they collect. *)
Definition count_collect (p : Parser) (a : Z) (tweet : Json)
  : Z * option Exception := (a + 1, None).

(** The same, with a statistics parser that raises. *)
Definition picky_collect (p : Parser) (a : Z) (tweet : Json)
  : Z * option Exception :=
  match p with
  | Statistics => (a, Some (OtherError "KeyError"))
  | _ => (a + 1, None)
  end.

Definition echo_generate (p : Parser) (a : Z) : Z * (Exception + Z) :=
  (a, inr a).

(** The same, with a cloud parser whose [generate] raises. *)
Definition broken_generate (p : Parser) (a : Z) : Z * (Exception + Z) :=
  match p with
  | Cloud => (a, inl (OtherError "IOError"))
  | _ => (a, inr a)
  end.

Definition count_of (a : Z) : Z := a.

(** A decoder that agrees with [json.loads] on the lines used below. *)
Definition sample_loads (line : string) : option Json :=
  if String.eqb line "{}" then Some (JObject [])
  else if String.eqb line "[]" then Some (JArray [])
  else None.

Definition broker (message : Z) : option Exception := None.

Definition no_size (a : Archive Z) : Z := 0.

Definition sample_archive : Archive Z :=
  mkArchive 1 "rocq" true false 0 0 None None None None None None.

(** A worker just started at time 0. *)
Definition fresh : ArchiveConsumer Z Z :=
  mkConsumer sample_archive (fun _ => 0) false 0 false [].

(** Five well-formed lines and two malformed ones. *)
Definition sample_log : list string :=
  ["{}"; "oops"; "{}"; "{}"; ""; "{}"; "{}"]%string.

(** Three records, as logged and as delivered at times 0, 400 and 402. *)
Definition sample_records : list (string * Delivery) :=
  [("{}"%string, (0, 0, JObject [], 1));
   ("{}"%string, (400, 401, JObject [], 2));
   ("{}"%string, (402, 403, JObject [], 3))].

End Consumers.

(** * Properties of the collector *)

Module CollectorProofs.
Import Collector.

(** ** The registry and the connections it stands for *)

Lemma live_emit e s : live (emit e s) = live_step (live s) e.
Proof. unfold live, live_after; simpl. now rewrite fold_left_app. Qed.

Lemma extends_ok_refl s : NoDup (live s) -> extends_ok s s.
Proof.
  intros H. exists []. split; [now rewrite app_nil_r|].
  intros p r E. symmetry in E. apply app_eq_nil in E as [-> _].
  now rewrite app_nil_r.
Qed.

Lemma extends_ok_trans s1 s2 s3 :
  extends_ok s1 s2 -> extends_ok s2 s3 -> extends_ok s1 s3.
Proof.
  intros (e1 & L1 & H1) (e2 & L2 & H2).
  exists (e1 ++ e2). split; [now rewrite L2, L1, app_assoc|].
  intros p r E.
  apply app_eq_app in E as [l [[-> ->]|[-> ->]]].
  - apply (H1 p l eq_refl).
  - rewrite app_assoc, <- L1. apply (H2 l r eq_refl).
Qed.

Lemma extends_ok_emit e s :
  NoDup (live s) -> NoDup (live (emit e s)) -> extends_ok s (emit e s).
Proof.
  intros H0 H1. exists [e]. split; [reflexivity|].
  intros [|x p] r E.
  - now rewrite app_nil_r.
  - injection E as -> E. symmetry in E. apply app_eq_nil in E as [-> _].
    exact H1.
Qed.

Lemma extends_ok_same_log s s' :
  log s' = log s -> NoDup (live s) -> extends_ok s s'.
Proof.
  intros E H. exists []. split; [now rewrite app_nil_r|].
  intros p r E'. symmetry in E'. apply app_eq_nil in E' as [-> _].
  now rewrite app_nil_r.
Qed.

(** ** Lists and dictionaries *)

Lemma remove_first_incl k l x : In x (remove_first k l) -> In x l.
Proof.
  induction l as [|y l IH]; simpl; [easy|].
  destruct (y =? k); [now right|]. intros [->|H]; [now left|right; auto].
Qed.

Lemma remove_first_nodup k l : NoDup l -> NoDup (remove_first k l).
Proof.
  induction 1 as [|y l Hy Hl IH]; simpl; [constructor|].
  destruct (y =? k); [assumption|].
  constructor; [|assumption]. intros H; apply Hy. eapply remove_first_incl, H.
Qed.

Lemma remove_first_gone k l : NoDup l -> ~ In k (remove_first k l).
Proof.
  induction 1 as [|y l Hy Hl IH]; simpl; [easy|].
  destruct (Z.eqb_spec y k) as [->|N]; [assumption|].
  intros [E|H]; [now apply N|now apply IH].
Qed.

Lemma remove_first_other k l x : In x l -> x <> k -> In x (remove_first k l).
Proof.
  induction l as [|y l IH]; simpl; [easy|].
  intros [->|H] N.
  - destruct (Z.eqb_spec x k); [contradiction|now left].
  - destruct (y =? k); [assumption|right; auto].
Qed.

Lemma dict_mem_owners {V} u (m : list (User * V)) :
  dict_mem user_eqb u m = true <-> In (user_pk u) (owners m).
Proof.
  unfold dict_mem, owners, user_eqb. rewrite existsb_exists, in_map_iff.
  split.
  - intros (kv & H & E). apply Z.eqb_eq in E. now exists kv.
  - intros (kv & E & H). exists kv. split; [assumption|]. now apply Z.eqb_eq.
Qed.

Lemma owners_dict_del {V} u (m : list (User * V)) :
  owners (dict_del user_eqb u m)
  = filter (fun k => negb (user_pk u =? k)) (owners m).
Proof.
  unfold owners, dict_del, user_eqb.
  induction m as [|[k v] m IH]; simpl; [reflexivity|].
  destruct (user_pk u =? user_pk k); simpl; now rewrite IH.
Qed.

Lemma owners_dict_set {V} u (v : V) (m : list (User * V)) :
  owners (dict_set user_eqb u v m)
  = if dict_mem user_eqb u m then owners m else owners m ++ [user_pk u].
Proof.
  unfold owners, dict_mem, user_eqb.
  induction m as [|[k w] m IH]; simpl; [reflexivity|].
  destruct (user_pk u =? user_pk k); simpl; [reflexivity|].
  rewrite IH. now destruct (existsb _ m).
Qed.

Lemma in_dict_del {V} u (m : list (User * V)) kv :
  In kv (dict_del user_eqb u m) <-> In kv m /\ user_eqb u (fst kv) = false.
Proof.
  unfold dict_del. rewrite filter_In, negb_true_iff. tauto.
Qed.

Lemma in_dict_set {V} (u : User) (v : V) (m : list (User * V)) k w :
  In (k, w) (dict_set user_eqb u v m) ->
  In (k, w) m \/ (w = v /\ user_pk k = user_pk u).
Proof.
  induction m as [|[k' w'] m IH]; simpl.
  - intros [E|[]]. injection E as <- <-. now right.
  - unfold user_eqb at 1. destruct (Z.eqb_spec (user_pk u) (user_pk k')); simpl.
    + intros [E|H]; [injection E as <- <-; now right|left; now right].
    + intros [E|H]; [left; now left|].
      destruct (IH H); [left; now right|now right].
Qed.

Lemma dict_get_in {V} (u : User) (m : list (User * V)) l :
  dict_get user_eqb u m = Some l ->
  exists k, In (k, l) m /\ user_pk k = user_pk u.
Proof.
  induction m as [|[k' w'] m IH]; simpl; [easy|].
  unfold user_eqb at 1. destruct (Z.eqb_spec (user_pk u) (user_pk k')).
  - intros E. injection E as <-. exists k'. split; [now left|congruence].
  - intros H. destruct (IH H) as (k & Hk & Ek). exists k.
    split; [now right|easy].
Qed.

Lemma nodup_filter {A} (p : A -> bool) l : NoDup l -> NoDup (filter p l).
Proof.
  induction 1 as [|x l Hx Hl IH]; simpl; [constructor|].
  destruct (p x); [|assumption].
  constructor; [|assumption]. rewrite filter_In. tauto.
Qed.

Lemma nodup_snoc {A} (x : A) l : NoDup l -> ~ In x l -> NoDup (l ++ [x]).
Proof.
  intros Hl Hx. apply NoDup_app; [assumption|repeat constructor; easy|].
  intros y Hy [<-|[]]. contradiction.
Qed.

(** ** Steps that keep the registry and the connections in agreement *)

Lemma ok_step_refl s : ok_step s s.
Proof. intros H. split; [assumption|]. apply extends_ok_refl, H. Qed.

Lemma ok_step_trans s1 s2 s3 : ok_step s1 s2 -> ok_step s2 s3 -> ok_step s1 s3.
Proof.
  intros H12 H23 H1. destruct (H12 H1) as [H2 E12].
  destruct (H23 H2) as [H3 E23]. split; [assumption|].
  eapply extends_ok_trans; eassumption.
Qed.

Lemma ok_step_fold {A} (f : Command -> A -> Command) :
  (forall x s, ok_step s (f s x)) ->
  forall l s, ok_step s (fold_left f l s).
Proof.
  intros Hf l. induction l as [|x l IH]; intros s; simpl.
  - apply ok_step_refl.
  - eapply ok_step_trans; [apply Hf|apply IH].
Qed.

Lemma live_emit_quiet e s : quiet e -> live (emit e s) = live s.
Proof. intros Q. rewrite live_emit. now destruct e. Qed.

Lemma ok_step_emit_quiet e s : quiet e -> ok_step s (emit e s).
Proof.
  intros Q [H1 H2 H3]. pose proof (live_emit_quiet e s Q) as E. split.
  - constructor; simpl; rewrite ?E; assumption.
  - apply extends_ok_emit; rewrite ?E; assumption.
Qed.

Lemma ok_step_same s s' :
  log s' = log s -> streams s' = streams s -> ok_step s s'.
Proof.
  intros L S [H1 H2 H3].
  assert (E : live s' = live s) by (unfold live; now rewrite L).
  split.
  - constructor; rewrite ?E, ?S; assumption.
  - now apply extends_ok_same_log.
Qed.

Lemma ok_step_save a s : ok_step s (save a s).
Proof.
  unfold save. eapply ok_step_trans; [|now apply ok_step_emit_quiet].
  apply ok_step_same; reflexivity.
Qed.

Lemma ok_step_stop_tracking a s : ok_step s (stop_tracking a s).
Proof.
  unfold stop_tracking. eapply ok_step_trans; [|apply ok_step_save].
  destruct (existsb _ _); [now apply ok_step_same|apply ok_step_refl].
Qed.

Lemma ok_step_start_tracking a s : ok_step s (start_tracking a s).
Proof.
  unfold start_tracking. eapply ok_step_trans; [|apply ok_step_save].
  destruct (existsb _ _); [apply ok_step_refl|now apply ok_step_same].
Qed.

Lemma dict_del_absent {V} u (m : list (User * V)) :
  dict_mem user_eqb u m = false -> dict_del user_eqb u m = m.
Proof.
  unfold dict_mem, dict_del. induction m as [|kv m IH]; simpl; [reflexivity|].
  rewrite orb_false_iff. intros [-> H]. simpl. now rewrite IH.
Qed.

Lemma kill_streams u s : streams (kill u s) = dict_del user_eqb u (streams s).
Proof.
  unfold kill. destruct (dict_mem _ _ _) eqn:E; [reflexivity|].
  now rewrite dict_del_absent.
Qed.

Lemma ok_step_disconnect u s : ok_step s (emit (Disconnect u) s).
Proof.
  intros [H1 H2 H3].
  assert (N : NoDup (live (emit (Disconnect u) s)))
    by (rewrite live_emit; now apply remove_first_nodup).
  split; [constructor|]; [exact N|exact H2| |now apply extends_ok_emit].
  rewrite live_emit. intros x Hx. apply H3. eapply remove_first_incl, Hx.
Qed.

Lemma ok_step_unregister u s :
  ~ In (user_pk u) (live s) ->
  ok_step s (set_streams (dict_del user_eqb u (streams s)) s).
Proof.
  intros A [H1 H2 H3]. split; [constructor|]; simpl.
  - exact H1.
  - rewrite owners_dict_del. now apply nodup_filter.
  - rewrite owners_dict_del. intros x Hx. apply filter_In. split.
    + now apply H3.
    + apply negb_true_iff, Z.eqb_neq. intros <-. now apply A.
  - now apply extends_ok_same_log.
Qed.

Lemma ok_step_kill u s : ok_step s (kill u s).
Proof.
  unfold kill. destruct (dict_mem _ _ _) eqn:M; [|apply ok_step_refl].
  intros R.
  assert (A : ~ In (user_pk u)
                   (live (emit (CloseLog u) (emit (Disconnect u) s)))).
  { rewrite live_emit_quiet, live_emit by exact I.
    apply remove_first_gone, R. }
  revert R.
  eapply ok_step_trans; [apply ok_step_disconnect|].
  eapply ok_step_trans; [apply (ok_step_emit_quiet (CloseLog u)); exact I|].
  apply (ok_step_unregister u _ A).
Qed.

(** ** The loops of [adjust_connections] *)

Lemma kill_loop_absent us : forall s x,
  In x (owners (streams (fold_left (fun s u => kill u s) us s))) ->
  In x (owners (streams s)) /\ forall v, In v us -> user_pk v <> x.
Proof.
  induction us as [|u us IH]; intros s x; simpl.
  - intros H. split; [assumption|easy].
  - intros H. apply IH in H as [H N].
    rewrite kill_streams, owners_dict_del, filter_In in H.
    destruct H as [H E]. split; [assumption|].
    intros v [<-|Hv]; [|now apply N].
    now apply negb_true_iff, Z.eqb_neq in E.
Qed.

Lemma streams_save a s : streams (save a s) = streams s.
Proof. reflexivity. Qed.

Lemma streams_stop_tracking a s : streams (stop_tracking a s) = streams s.
Proof. unfold stop_tracking. now destruct (existsb _ _). Qed.

Lemma streams_start_tracking a s : streams (start_tracking a s) = streams s.
Proof. unfold start_tracking. now destruct (existsb _ _). Qed.

Lemma fold_keeps {A B} (field : Command -> B) (f : Command -> A -> Command) :
  (forall x s, field (f s x) = field s) ->
  forall l s, field (fold_left f l s) = field s.
Proof.
  intros Hf l. induction l as [|x l IH]; intros s; simpl; [reflexivity|].
  now rewrite IH, Hf.
Qed.

Lemma regroup_ok ua g a : groups_ok ua g -> groups_ok ua (regroup ua g a).
Proof.
  intros [N K]. unfold regroup.
  destruct (existsb _ ua) eqn:E; [|now split].
  apply existsb_exists in E as (v & Hv & Ev). apply Z.eqb_eq in Ev.
  set (g1 := if dict_mem user_eqb (user a) g then g
             else dict_set user_eqb (user a) [] g).
  assert (G1 : groups_ok ua g1).
  { unfold g1. destruct (dict_mem _ _ g) eqn:M; [now split|].
    split; rewrite owners_dict_set, M.
    - apply nodup_snoc; [assumption|].
      intros H. apply dict_mem_owners in H. congruence.
    - intros k Hk. apply in_app_or in Hk as [Hk|[<-|[]]]; [now apply K|].
      now exists v. }
  assert (M1 : dict_mem user_eqb (user a) g1 = true).
  { unfold g1. destruct (dict_mem _ _ g) eqn:M; [assumption|].
    apply dict_mem_owners. rewrite owners_dict_set, M.
    apply in_or_app. right. now left. }
  destruct (dict_get _ _ g1); [|assumption].
  destruct G1 as [N1 K1]. split; rewrite owners_dict_set, M1; assumption.
Qed.

Lemma regroup_loop_ok ua l : forall g,
  groups_ok ua g -> groups_ok ua (fold_left (regroup ua) l g).
Proof.
  induction l as [|a l IH]; intros g G; simpl; [assumption|].
  now apply IH, regroup_ok.
Qed.

Section Reconciliation.
Variable connect : User -> list Archive -> Opening.

Lemma ok_step_open u archives s :
  ~ In (user_pk u) (owners (streams s)) ->
  ok_step s (open connect (u, archives) s).
Proof.
  intros A. unfold open.
  assert (M : dict_mem user_eqb u (streams s) = false).
  { destruct (dict_mem _ _ _) eqn:E; [|reflexivity].
    now apply dict_mem_owners in E. }
  eapply ok_step_trans; [|now apply ok_step_emit_quiet].
  destruct (connect u archives).
  - now apply ok_step_emit_quiet.
  - eapply ok_step_trans; [|now apply ok_step_emit_quiet].
    intros [H1 H2 H3]. split.
    + constructor; simpl; rewrite ?owners_dict_set, ?M.
      * exact H1.
      * now apply nodup_snoc.
      * intros x Hx. apply in_or_app. left. now apply H3.
    + now apply extends_ok_same_log.
  - intros [H1 H2 H3].
    set (s1 := set_streams _ s).
    set (e := Filter u (nodup string_dec (map query archives))).
    assert (N : NoDup (live (emit e s1))).
    { rewrite live_emit. simpl. constructor; [|exact H1].
      intros H. apply A. now apply H3. }
    split.
    + constructor; [exact N| |].
      * simpl. rewrite owners_dict_set, M. now apply nodup_snoc.
      * rewrite live_emit. simpl. rewrite owners_dict_set, M.
        intros x [<-|Hx]; apply in_or_app; [right; now left|left; now apply H3].
    + eapply extends_ok_trans.
      * apply extends_ok_same_log with (s' := s1); [reflexivity|exact H1].
      * apply extends_ok_emit; [exact H1|exact N].
Qed.

Lemma open_owners u archives s x :
  In x (owners (streams (open connect (u, archives) s))) ->
  In x (owners (streams s)) \/ x = user_pk u.
Proof.
  unfold open. destruct (connect u archives); simpl; auto;
    rewrite owners_dict_set; destruct (dict_mem _ _ _); auto;
    rewrite in_app_iff; simpl; intuition.
Qed.

Lemma ok_step_open_loop groups :
  NoDup (map (fun g => user_pk (fst g)) groups) ->
  forall s,
    (forall g, In g groups -> ~ In (user_pk (fst g)) (owners (streams s))) ->
    ok_step s (fold_left (fun s ua => open connect ua s) groups s).
Proof.
  induction groups as [|[u archives] groups IH]; intros N s A; simpl.
  - apply ok_step_refl.
  - inversion N as [|? ? Hu N']; subst.
    eapply ok_step_trans.
    + apply ok_step_open. apply (A (u, archives)). now left.
    + apply IH; [assumption|]. intros g Hg Hin.
      apply open_owners in Hin as [Hin|E].
      * apply (A g); [now right|assumption].
      * apply Hu. simpl. rewrite <- E. apply in_map_iff. now exists g.
Qed.

Lemma ok_step_adjust_connections to_start to_stop s :
  ok_step s (adjust_connections connect to_start to_stop s).
Proof.
  unfold adjust_connections.
  set (ua := map user (to_start ++ to_stop)).
  set (s1 := fold_left (fun s u => kill u s) ua s).
  set (s2 := fold_left (fun s a => stop_tracking a s) to_stop s1).
  set (s3 := fold_left (fun s a => start_tracking a s) to_start s2).
  set (groups := fold_left (regroup ua) (tracking s3) []).
  assert (S3 : streams s3 = streams s1).
  { unfold s3, s2.
    rewrite (fold_keeps streams _ (fun x s => streams_start_tracking x s)).
    now rewrite (fold_keeps streams _ (fun x s => streams_stop_tracking x s)). }
  assert (G : groups_ok ua groups).
  { apply regroup_loop_ok. split; [constructor|intros k []]. }
  eapply ok_step_trans; [apply (ok_step_fold _ (fun u s => ok_step_kill u s))|].
  eapply ok_step_trans;
    [apply (ok_step_fold _ (fun a s => ok_step_stop_tracking a s))|].
  eapply ok_step_trans;
    [apply (ok_step_fold _ (fun a s => ok_step_start_tracking a s))|].
  apply ok_step_open_loop; [apply G|].
  intros g Hg Hin. fold s1 s2 s3 in Hin. rewrite S3 in Hin.
  apply kill_loop_absent in Hin as [_ Hin].
  destruct G as [_ K].
  destruct (K (user_pk (fst g))) as (v & Hv & Ev).
  - apply in_map_iff. now exists g.
  - now apply (Hin v).
Qed.

End Reconciliation.

(** ** The log of [adjust_connections] *)

Lemma log_kill_loop us : forall s,
  exists kills,
    log (fold_left (fun s u => kill u s) us s) = log s ++ kills /\
    Forall is_kill kills /\
    forall u, In u us -> In (user_pk u) (owners (streams s)) ->
      exists v, user_pk v = user_pk u /\
                In (Disconnect v) kills /\ In (CloseLog v) kills.
Proof.
  induction us as [|u us IH]; intros s; simpl.
  - exists []. rewrite app_nil_r. repeat split; [constructor|intros ? []].
  - destruct (IH (kill u s)) as (kills & L & F & K).
    destruct (dict_mem user_eqb u (streams s)) eqn:M.
    + exists ([Disconnect u; CloseLog u] ++ kills). split; [|split].
      * rewrite L. unfold kill. rewrite M. simpl.
        now rewrite <- !app_assoc.
      * repeat constructor. exact F.
      * intros u' Hu' Hin.
        destruct (Z.eq_dec (user_pk u') (user_pk u)) as [E|D].
        -- exists u. simpl. auto.
        -- destruct Hu' as [->|Hu']; [contradiction|].
           destruct (K u' Hu') as (v & Ev & H1 & H2).
           { rewrite kill_streams, owners_dict_del. apply filter_In.
             split; [assumption|]. apply negb_true_iff, Z.eqb_neq. congruence. }
           exists v. split; [assumption|]. split; apply in_or_app; now right.
    + exists kills. split; [|split; [exact F|]].
      * rewrite L. unfold kill. now rewrite M.
      * intros u' Hu' Hin.
        assert (D : user_pk u' <> user_pk u).
        { intros E. rewrite E in Hin. apply dict_mem_owners in Hin.
          congruence. }
        destruct Hu' as [->|Hu']; [contradiction|].
        apply (K u' Hu'). rewrite kill_streams, owners_dict_del.
        apply filter_In. split; [assumption|].
        apply negb_true_iff, Z.eqb_neq. congruence.
Qed.

Lemma log_save_loop (f : Archive -> Command -> Command) :
  (forall a s, exists b, log (f a s) = log s ++ [Save (pk a) b]) ->
  forall l s, exists saves,
    log (fold_left (fun s a => f a s) l s) = log s ++ saves /\
    Forall is_save saves.
Proof.
  intros Hf l. induction l as [|a l IH]; intros s; simpl.
  - exists []. rewrite app_nil_r. split; [reflexivity|constructor].
  - destruct (IH (f a s)) as (saves & L & F). destruct (Hf a s) as [b E].
    exists (Save (pk a) b :: saves). split.
    + rewrite L, E, <- app_assoc. reflexivity.
    + constructor; [exact I|exact F].
Qed.

Lemma log_stop_tracking a s :
  exists b, log (stop_tracking a s) = log s ++ [Save (pk a) b].
Proof. exists false. unfold stop_tracking. now destruct (existsb _ _). Qed.

Lemma log_start_tracking a s :
  exists b, log (start_tracking a s) = log s ++ [Save (pk a) b].
Proof. exists true. unfold start_tracking. now destruct (existsb _ _). Qed.

Section Opening.
Variable connect : User -> list Archive -> Opening.

Lemma log_open_loop groups : forall s,
  exists opens,
    log (fold_left (fun s ua => open connect ua s) groups s) = log s ++ opens /\
    Forall is_open opens /\
    incl (opened opens) (owners groups) /\
    (NoDup (owners groups) -> NoDup (opened opens)).
Proof.
  induction groups as [|[u l] groups IH]; intros s; simpl.
  - exists []. rewrite app_nil_r.
    repeat split; [constructor|intros ? []|constructor].
  - destruct (IH (open connect (u, l) s)) as (opens & L & F & I & N).
    unfold open in L. unfold open.
    destruct (connect u l); simpl in L.
    + exists ([Alert u; Sleep LISTENER_WAIT_TIME] ++ opens).
      rewrite L, <- !app_assoc. simpl.
      repeat split; [repeat constructor; exact F| |].
      * intros x Hx. right. now apply I.
      * intros D. inversion D; subst. now apply N.
    + exists ([Alert u; Sleep LISTENER_WAIT_TIME] ++ opens).
      rewrite L, <- !app_assoc. simpl.
      repeat split; [repeat constructor; exact F| |].
      * intros x Hx. right. now apply I.
      * intros D. inversion D; subst. now apply N.
    + exists ([Filter u (nodup string_dec (map query l));
               Sleep LISTENER_WAIT_TIME] ++ opens).
      rewrite L, <- !app_assoc. simpl.
      repeat split; [repeat constructor; exact F| |].
      * intros x [<-|Hx]; [now left|right; now apply I].
      * intros D. inversion D as [|? ? Hu D']; subst.
        constructor; [|now apply N]. intros H. apply Hu. now apply I.
Qed.

Lemma log_adjust_connections to_start to_stop s :
  exists kills saves opens,
    log (adjust_connections connect to_start to_stop s)
    = log s ++ kills ++ saves ++ opens /\
    Forall is_kill kills /\ Forall is_save saves /\ Forall is_open opens /\
    (forall u, In u (map user (to_start ++ to_stop)) ->
               In (user_pk u) (owners (streams s)) ->
               exists v, user_pk v = user_pk u /\
                         In (Disconnect v) kills /\ In (CloseLog v) kills) /\
    NoDup (opened opens).
Proof.
  unfold adjust_connections.
  set (ua := map user (to_start ++ to_stop)).
  destruct (log_kill_loop ua s) as (kills & L1 & F1 & K).
  set (s1 := fold_left (fun s u => kill u s) ua s) in *.
  destruct (log_save_loop stop_tracking log_stop_tracking to_stop s1)
    as (stops & L2 & F2).
  set (s2 := fold_left (fun s a => stop_tracking a s) to_stop s1) in *.
  destruct (log_save_loop start_tracking log_start_tracking to_start s2)
    as (starts & L3 & F3).
  set (s3 := fold_left (fun s a => start_tracking a s) to_start s2) in *.
  destruct (log_open_loop (fold_left (regroup ua) (tracking s3) []) s3)
    as (opens & L4 & F4 & _ & N).
  exists kills, (stops ++ starts), opens.
  split; [|split; [|split; [|split; [|split]]]].
  - rewrite L4, L3, L2, L1, <- !app_assoc. reflexivity.
  - exact F1.
  - apply Forall_app. now split.
  - exact F4.
  - exact K.
  - apply N. apply regroup_loop_ok. split; [constructor|intros k []].
Qed.

End Opening.

(** ** What [_get_archives_to_start] returns *)

Section ToStart.
Variable STATUS_DISABLED : Z.

Lemma to_start_eq now s :
  fst (_get_archives_to_start STATUS_DISABLED now s)
  = exclude (user__status STATUS_DISABLED)
      (match to_restart s with
       | [] => due now s
       | ids => filter (pk__in (map pk (due now s) ++ ids)) (objects s)
       end).
Proof.
  unfold _get_archives_to_start, due, _handle_restarts.
  destruct (first_pass_completed s); simpl;
    change (to_restart (set_first_pass_completed true s)) with (to_restart s);
    destruct (to_restart s); reflexivity.
Qed.

Lemma to_start_state now s :
  let s' := snd (_get_archives_to_start STATUS_DISABLED now s) in
  objects s' = objects s /\ tracking s' = tracking s /\
  streams s' = streams s /\
  first_pass_completed s' = first_pass_completed s /\
  log s' = log s ++ match to_restart s with
                    | [] => []
                    | _ => [Sleep CHILL_TIME]
                    end.
Proof.
  unfold _get_archives_to_start, _handle_restarts.
  destruct (first_pass_completed s) eqn:F; simpl;
    change (to_restart (set_first_pass_completed true s)) with (to_restart s);
    destruct (to_restart s); simpl; rewrite ?app_nil_r; auto.
Qed.

Lemma pk__in_spec ids a : pk__in ids a = true <-> In (pk a) ids.
Proof.
  unfold pk__in. rewrite existsb_exists. split.
  - intros (x & H & E). apply Z.eqb_eq in E. now rewrite E.
  - intros H. exists (pk a). split; [assumption|apply Z.eqb_refl].
Qed.

Lemma in_due now s a :
  In a (due now s) ->
  In a (objects s) /\ started a <= now /\
  ~ In (pk a) (map pk (tracking s)) /\
  match stopped a with Some t => now < t | None => True end.
Proof.
  unfold due. rewrite filter_In. intros [H W].
  assert (H' : In a (exclude (pk__in (map pk (tracking s)))
                       (filter (started__lte now) (objects s)))).
  { destruct (first_pass_completed s); [|assumption].
    unfold exclude at 1 in H. now apply filter_In in H. }
  unfold exclude in H'. rewrite !filter_In in H'.
  destruct H' as [[Ho Hs] Ht]. repeat split.
  - assumption.
  - now apply Z.leb_le.
  - intros Hin. apply pk__in_spec in Hin. now rewrite Hin in Ht.
  - unfold stopped__gt, stopped__isnull in W. destruct (stopped a); [|exact I].
    rewrite orb_false_r in W. now apply Z.ltb_lt.
Qed.

Lemma in_to_start now s a :
  In a (fst (_get_archives_to_start STATUS_DISABLED now s)) <->
  status (user a) <> STATUS_DISABLED /\
  match to_restart s with
  | [] => In a (due now s)
  | ids => In a (objects s) /\
           (In (pk a) (map pk (due now s)) \/ In (pk a) ids)
  end.
Proof.
  rewrite to_start_eq. unfold exclude. rewrite filter_In.
  unfold user__status. rewrite negb_true_iff, Z.eqb_neq.
  destruct (to_restart s) as [|i ids]; [tauto|].
  rewrite filter_In, pk__in_spec, in_app_iff. tauto.
Qed.

End ToStart.

(** ** The store, the tracked list and the registry across one tick *)

Lemma nodup_pk_eq (l : list Archive) a b :
  NoDup (map pk l) -> In a l -> In b l -> pk a = pk b -> a = b.
Proof.
  induction l as [|x l IH]; simpl; [easy|].
  intros N Ha Hb E. inversion N as [|? ? Hx N']; subst.
  destruct Ha as [->|Ha], Hb as [->|Hb]; auto.
  - exfalso. apply Hx. rewrite E. now apply in_map.
  - exfalso. apply Hx. rewrite <- E. now apply in_map.
Qed.

Lemma in_objects_save a s r :
  In r (objects (save a s)) ->
  exists r0, In r0 (objects s) /\ pk r0 = pk r /\ user r0 = user r /\
             ((pk r <> pk a /\ is_running r = is_running r0) \/
              (pk r = pk a /\ is_running r = is_running a)).
Proof.
  simpl. rewrite in_map_iff. intros (r0 & E & H). exists r0.
  split; [assumption|].
  destruct (Z.eqb_spec (pk r0) (pk a)) as [Ek|Nk]; subst r; simpl; auto.
Qed.

Lemma objects_stop_tracking a s :
  objects (stop_tracking a s) = objects (save (set_is_running false a) s).
Proof. unfold stop_tracking. now destruct (existsb _ _). Qed.

Lemma objects_start_tracking a s :
  objects (start_tracking a s) = objects (save (set_is_running true a) s).
Proof. unfold start_tracking. now destruct (existsb _ _). Qed.

Lemma not_running_stop k a s :
  not_running k s \/ pk a = k -> not_running k (stop_tracking a s).
Proof.
  intros H r Hr Ek. rewrite objects_stop_tracking in Hr.
  apply in_objects_save in Hr as (r0 & H0 & E0 & _ & [[D E]|[_ E]]).
  - destruct H as [H|H].
    + rewrite E. apply (H r0 H0). congruence.
    + simpl in D. congruence.
  - exact E.
Qed.

Lemma not_running_stop_loop k l : forall s,
  not_running k s \/ In k (map pk l) ->
  not_running k (fold_left (fun s a => stop_tracking a s) l s).
Proof.
  induction l as [|a l IH]; intros s H; simpl.
  - destruct H as [H|[]]. exact H.
  - apply IH. simpl in H. destruct H as [H|[H|H]].
    + left. apply not_running_stop. now left.
    + left. apply not_running_stop. now right.
    + now right.
Qed.

Lemma not_running_start k a s :
  pk a <> k -> not_running k s -> not_running k (start_tracking a s).
Proof.
  intros N H r Hr Ek. rewrite objects_start_tracking in Hr.
  apply in_objects_save in Hr as (r0 & H0 & E0 & _ & [[_ E]|[E _]]).
  - rewrite E. apply (H r0 H0). congruence.
  - simpl in E. congruence.
Qed.

Lemma not_running_start_loop k l : forall s,
  ~ In k (map pk l) -> not_running k s ->
  not_running k (fold_left (fun s a => start_tracking a s) l s).
Proof.
  induction l as [|a l IH]; intros s N H; simpl; [exact H|].
  simpl in N. apply IH; [tauto|]. apply not_running_start; [tauto|exact H].
Qed.

Lemma list_remove_incl a l x : In x (list_remove a l) -> In x l.
Proof.
  induction l as [|y l IH]; simpl; [easy|].
  destruct (archive_eqb y a); [now right|]. intros [->|H]; auto.
Qed.

Lemma list_remove_pk a l :
  NoDup (map pk l) ->
  NoDup (map pk (list_remove a l)) /\ ~ In (pk a) (map pk (list_remove a l)).
Proof.
  induction l as [|y l IH]; simpl; intros N.
  - split; [constructor|easy].
  - inversion N as [|? ? Hy N']; subst. unfold archive_eqb.
    destruct (Z.eqb_spec (pk y) (pk a)) as [E|D].
    + split; [assumption|]. now rewrite <- E.
    + destruct (IH N') as [N1 N2]. split; simpl.
      * constructor; [|assumption]. intros H. apply Hy.
        apply in_map_iff in H as (z & Ez & Hz). rewrite <- Ez.
        apply in_map. eapply list_remove_incl, Hz.
      * intros [E|H]; [now apply D|now apply N2].
Qed.

Lemma existsb_archive_eqb a l :
  existsb (archive_eqb a) l = true <-> In (pk a) (map pk l).
Proof.
  rewrite existsb_exists, in_map_iff. unfold archive_eqb. split.
  - intros (x & H & E). apply Z.eqb_eq in E. now exists x.
  - intros (x & E & H). exists x. split; [assumption|]. now apply Z.eqb_eq.
Qed.

Lemma tracking_save a s : tracking (save a s) = tracking s.
Proof. reflexivity. Qed.

Lemma tracking_stop a s :
  tracking (stop_tracking a s)
  = if existsb (archive_eqb a) (tracking s)
    then list_remove a (tracking s) else tracking s.
Proof. unfold stop_tracking. now destruct (existsb _ _). Qed.

Lemma tracking_start a s :
  tracking (start_tracking a s)
  = if existsb (archive_eqb a) (tracking s)
    then tracking s else tracking s ++ [set_is_running true a].
Proof. unfold start_tracking. now destruct (existsb _ _). Qed.

Lemma stop_tracking_pk a s :
  NoDup (map pk (tracking s)) ->
  NoDup (map pk (tracking (stop_tracking a s))) /\
  untracked (pk a) (stop_tracking a s).
Proof.
  intros N. unfold untracked. rewrite tracking_stop.
  destruct (existsb _ _) eqn:E.
  - now apply list_remove_pk.
  - split; [assumption|]. intros H. apply existsb_archive_eqb in H. congruence.
Qed.

Lemma stop_tracking_incl a s x :
  In x (tracking (stop_tracking a s)) -> In x (tracking s).
Proof.
  rewrite tracking_stop. destruct (existsb _ _); [|easy].
  apply list_remove_incl.
Qed.

Lemma untracked_stop k a s : untracked k s -> untracked k (stop_tracking a s).
Proof.
  unfold untracked. intros H Hin. apply H.
  apply in_map_iff in Hin as (x & E & Hx). rewrite <- E.
  apply in_map. eapply stop_tracking_incl, Hx.
Qed.

Lemma untracked_stop_loop k l : forall s,
  NoDup (map pk (tracking s)) ->
  untracked k s \/ In k (map pk l) ->
  untracked k (fold_left (fun s a => stop_tracking a s) l s).
Proof.
  induction l as [|a l IH]; intros s N H; simpl.
  - destruct H as [H|[]]. exact H.
  - destruct (stop_tracking_pk a s N) as [N' U].
    apply IH; [assumption|]. simpl in H. destruct H as [H|[H|H]].
    + left. now apply untracked_stop.
    + left. now rewrite <- H.
    + now right.
Qed.

Lemma untracked_start k a s :
  pk a <> k -> untracked k s -> untracked k (start_tracking a s).
Proof.
  unfold untracked. intros N H. rewrite tracking_start.
  destruct (existsb _ _); [assumption|].
  rewrite map_app, in_app_iff. simpl. tauto.
Qed.

Lemma untracked_start_loop k l : forall s,
  ~ In k (map pk l) -> untracked k s ->
  untracked k (fold_left (fun s a => start_tracking a s) l s).
Proof.
  induction l as [|a l IH]; intros s N H; simpl; [exact H|].
  simpl in N. apply IH; [tauto|]. apply untracked_start; [tauto|exact H].
Qed.

Lemma kill_loop_streams us : forall s kv,
  In kv (streams (fold_left (fun s u => kill u s) us s)) ->
  In kv (streams s) /\ forall v, In v us -> user_pk v <> user_pk (fst kv).
Proof.
  induction us as [|u us IH]; intros s kv; simpl.
  - intros H. split; [assumption|easy].
  - intros H. apply IH in H as [H N].
    rewrite kill_streams, in_dict_del in H. destruct H as [H E].
    split; [assumption|]. intros v [<-|Hv]; [|now apply N].
    now apply Z.eqb_neq in E.
Qed.

Lemma objects_kill u s : objects (kill u s) = objects s.
Proof. unfold kill. now destruct (dict_mem _ _ _). Qed.

Lemma tracking_kill u s : tracking (kill u s) = tracking s.
Proof. unfold kill. now destruct (dict_mem _ _ _). Qed.

Lemma regroup_members ua tracked g a :
  In a tracked -> members_ok tracked g -> members_ok tracked (regroup ua g a).
Proof.
  intros Ha G. unfold regroup. destruct (existsb _ ua); [|assumption].
  set (g1 := if dict_mem user_eqb (user a) g then g
             else dict_set user_eqb (user a) [] g).
  assert (G1 : members_ok tracked g1).
  { unfold g1. destruct (dict_mem _ _ g); [assumption|].
    intros u l x Hu Hx. apply in_dict_set in Hu as [Hu|[-> _]].
    - now apply (G u l).
    - destruct Hx. }
  destruct (dict_get _ _ g1) as [l0|] eqn:E; [|assumption].
  apply dict_get_in in E as (k0 & Hk0 & Ek0).
  intros u l x Hu Hx. apply in_dict_set in Hu as [Hu|[-> Eu]].
  - now apply (G1 u l).
  - apply in_app_or in Hx as [Hx|[<-|[]]].
    + destruct (G1 k0 l0 x Hk0 Hx) as [H1 H2]. split; congruence.
    + split; [assumption|congruence].
Qed.

Lemma regroup_loop_members ua tracked l : forall g,
  incl l tracked -> members_ok tracked g ->
  members_ok tracked (fold_left (regroup ua) l g).
Proof.
  induction l as [|a l IH]; intros g I G; simpl; [assumption|].
  apply IH; [intros x Hx; apply I; now right|].
  apply regroup_members; [apply I; now left|assumption].
Qed.

Section Tick.
Variable STATUS_DISABLED : Z.
Variable connect : User -> list Archive -> Opening.

Lemma objects_open ua s : objects (open connect ua s) = objects s.
Proof. destruct ua as [u l]. unfold open. now destruct (connect u l). Qed.

Lemma tracking_open ua s : tracking (open connect ua s) = tracking s.
Proof. destruct ua as [u l]. unfold open. now destruct (connect u l). Qed.

Lemma in_streams_open u archives s k w :
  In (k, w) (streams (open connect (u, archives) s)) ->
  In (k, w) (streams s) \/
  (channels w = archives /\ user_pk k = user_pk u).
Proof.
  unfold open. destruct (connect u archives); simpl; auto;
    intros H; apply in_dict_set in H as [H|[-> E]]; auto.
Qed.

Lemma in_streams_open_loop groups : forall s k w,
  In (k, w) (streams (fold_left (fun s ua => open connect ua s) groups s)) ->
  In (k, w) (streams s) \/
  exists u l, In (u, l) groups /\ channels w = l /\ user_pk k = user_pk u.
Proof.
  induction groups as [|[u l] groups IH]; intros s k w; simpl; [auto|].
  intros H. apply IH in H as [H|(u' & l' & H & E)].
  - apply in_streams_open in H as [H|[E1 E2]]; [now left|].
    right. exists u, l. split; [now left|easy].
  - right. exists u', l'. split; [now right|easy].
Qed.

(** The three lists after [adjust_connections], in terms of its loops. *)
Lemma adjust_connections_fields to_start to_stop s :
  let ua := map user (to_start ++ to_stop) in
  let s1 := fold_left (fun s u => kill u s) ua s in
  let s2 := fold_left (fun s a => stop_tracking a s) to_stop s1 in
  let s3 := fold_left (fun s a => start_tracking a s) to_start s2 in
  let groups := fold_left (regroup ua) (tracking s3) [] in
  let s' := adjust_connections connect to_start to_stop s in
  objects s' = objects s3 /\ tracking s' = tracking s3 /\
  objects s1 = objects s /\ tracking s1 = tracking s /\
  streams s3 = streams s1 /\
  forall k w, In (k, w) (streams s') ->
    In (k, w) (streams s1) \/
    exists u l, In (u, l) groups /\ channels w = l /\ user_pk k = user_pk u.
Proof.
  intros ua s1 s2 s3 groups s'.
  assert (E : s' = fold_left (fun s ua => open connect ua s) groups s3)
    by reflexivity.
  repeat split.
  - rewrite E. apply (fold_keeps objects _ (fun x s => objects_open x s)).
  - rewrite E. apply (fold_keeps tracking _ (fun x s => tracking_open x s)).
  - apply (fold_keeps objects _ (fun x s => objects_kill x s)).
  - apply (fold_keeps tracking _ (fun x s => tracking_kill x s)).
  - unfold s3, s2.
    rewrite (fold_keeps streams _ (fun x s => streams_start_tracking x s)).
    now rewrite (fold_keeps streams _ (fun x s => streams_stop_tracking x s)).
  - intros k w H. rewrite E in H. apply in_streams_open_loop in H.
    destruct H as [H|H]; [left|now right].
    unfold s3, s2 in H.
    rewrite (fold_keeps streams _ (fun x s => streams_start_tracking x s)) in H.
    now rewrite (fold_keeps streams _ (fun x s => streams_stop_tracking x s))
      in H.
Qed.

Lemma closed_not_due now s a t :
  NoDup (map pk (objects s)) ->
  In a (objects s) -> stopped a = Some t -> t <= now ->
  ~ In (pk a) (map pk (due now s)).
Proof.
  intros N Ha St Le H. apply in_map_iff in H as (y & Ey & Hy).
  apply in_due in Hy as (Hy & _ & _ & W).
  assert (y = a) by (eapply nodup_pk_eq; eassumption). subst y.
  rewrite St in W. lia.
Qed.

Lemma closed_not_to_start now s a t :
  NoDup (map pk (objects s)) ->
  In a (objects s) -> stopped a = Some t -> t <= now ->
  ~ In (pk a) (to_restart s) ->
  ~ In (pk a) (map pk (fst (_get_archives_to_start STATUS_DISABLED now s))).
Proof.
  intros N Ha St Le R H. apply in_map_iff in H as (x & Ex & Hx).
  pose proof (closed_not_due now s a t N Ha St Le) as D.
  apply in_to_start in Hx as [_ Hx].
  destruct (to_restart s) as [|i ids] eqn:E.
  - apply D. rewrite <- Ex. now apply in_map.
  - destruct Hx as [Hx [H|H]]; rewrite Ex in H; [now apply D|now apply R].
Qed.

Lemma idle_stopped s a :
  consistent s -> In a (objects s) -> is_running a = false ->
  not_running (pk a) s /\ untracked (pk a) s /\ unbound (pk a) s.
Proof.
  intros C Ha F.
  assert (U : untracked (pk a) s).
  { intros H. apply in_map_iff in H as (t & Et & Ht).
    destruct (tracked_running s C t a Ht Ha) as [R _]; congruence. }
  repeat split.
  - intros r Hr E.
    assert (r = a) by (eapply nodup_pk_eq; eauto using objects_pk).
    now subst r.
  - exact U.
  - intros u st c Hs Hc E.
    destruct (channels_tracked s C u st c Hs Hc) as (t & Ht & Et & _).
    apply U. rewrite <- E, <- Et. now apply in_map.
Qed.

Lemma released_emit k e s : released k s -> released k (emit e s).
Proof. intros H. exact H. Qed.

Lemma tick_releases now s a t :
  consistent s ->
  In a (objects s) -> stopped a = Some t -> t <= now ->
  ~ In (pk a) (to_restart s) ->
  released (pk a) (tick STATUS_DISABLED connect now s).
Proof.
  intros C Ha St Le R. unfold tick.
  pose proof (closed_not_to_start now s a t (objects_pk s C) Ha St Le R) as F1.
  pose proof (to_start_state STATUS_DISABLED now s) as T.
  destruct (_get_archives_to_start STATUS_DISABLED now s) as [to_start s0].
  simpl in F1, T. destruct T as (To & Tt & Ts & _ & _).
  set (to_stop := filter (fun a => stopped__lte now a && is_running_is true a)
                         (objects s0)).
  assert (F2 : is_running a = true -> In a to_stop).
  { intros Ra. unfold to_stop. rewrite To. apply filter_In.
    split; [assumption|].
    unfold stopped__lte, is_running_is. rewrite St, Ra. simpl.
    rewrite andb_true_r. now apply Z.leb_le. }
  assert (F3 : is_running a = false -> released (pk a) s0).
  { intros Fa. destruct (idle_stopped s a C Ha Fa) as (I1 & I2 & I3).
    unfold released, not_running, untracked, unbound.
    rewrite To, Tt, Ts. auto. }
  apply released_emit.
  destruct (to_start ++ to_stop) as [|x0 l0] eqn:E.
  { apply F3. destruct (is_running a) eqn:Ra; [|reflexivity].
    apply app_eq_nil in E as [_ E]. specialize (F2 eq_refl).
    rewrite E in F2. destruct F2. }
  clear E.
  pose proof (adjust_connections_fields to_start to_stop s0) as A.
  cbv zeta in A. destruct A as (Ao & At & A1o & A1t & A3s & As).
  set (ua := map user (to_start ++ to_stop)) in *.
  set (s1 := fold_left (fun s u => kill u s) ua s0) in *.
  set (s2 := fold_left (fun s a => stop_tracking a s) to_stop s1) in *.
  set (s3 := fold_left (fun s a => start_tracking a s) to_start s2) in *.
  assert (B : (not_running (pk a) s1 /\ untracked (pk a) s1)
              \/ In (pk a) (map pk to_stop)).
  { destruct (is_running a) eqn:Ra.
    - right. apply in_map. now apply F2.
    - left. destruct (F3 eq_refl) as (I1 & I2 & _).
      unfold not_running, untracked. rewrite A1o, A1t. auto. }
  assert (U3 : untracked (pk a) s3).
  { apply untracked_start_loop; [assumption|].
    apply untracked_stop_loop; [rewrite A1t, Tt; apply C|tauto]. }
  repeat split.
  - unfold not_running. rewrite Ao.
    apply not_running_start_loop; [assumption|].
    apply not_running_stop_loop. tauto.
  - unfold untracked. rewrite At. exact U3.
  - intros k w c Hs Hc E. apply As in Hs as [Hs|(u & gl & Hg & El & _)].
    + apply kill_loop_streams in Hs as [Hs Hk]. rewrite Ts in Hs.
      destruct (channels_tracked s C k w c Hs Hc) as (tr & Htr & Etr & Eu).
      assert (Epk : pk a = pk tr) by congruence.
      destruct (tracked_running s C tr a Htr Ha Epk) as [Ra Ua].
      apply (Hk (user a)); [|simpl; congruence].
      unfold ua. apply in_map, in_or_app. right. now apply F2.
    + assert (M : members_ok (tracking s3)
                    (fold_left (regroup ua) (tracking s3) [])).
      { apply regroup_loop_members; [apply incl_refl|]. intros ? ? ? []. }
      rewrite El in Hc. destruct (M u gl c Hg Hc) as [Hin _].
      apply U3. rewrite <- E. now apply in_map.
Qed.

End Tick.

(** ** Consistency is kept by every tick *)

Lemma identities_save a s :
  map identity (objects (save a s)) = map identity (objects s).
Proof.
  simpl. rewrite map_map. apply map_ext. intros r.
  now destruct (pk r =? pk a).
Qed.

Lemma owner_of_identities l o r b :
  map identity l = map identity o -> NoDup (map pk o) ->
  In r l -> In b o -> pk r = pk b -> user r = user b.
Proof.
  intros E N Hr Hb Ek.
  assert (H : In (identity r) (map identity o))
    by (rewrite <- E; now apply in_map).
  apply in_map_iff in H as (r0 & E0 & H0). injection E0 as Ep Eu.
  assert (r0 = b) by (eapply nodup_pk_eq; eauto; congruence).
  congruence.
Qed.

Lemma tracked_ok_stop o b s :
  tracked_ok o s -> tracked_ok o (stop_tracking b s).
Proof.
  intros [R N M]. destruct (stop_tracking_pk b s N) as [N' U].
  constructor.
  - now rewrite objects_stop_tracking, identities_save.
  - exact N'.
  - intros t a Ht Ha E. rewrite objects_stop_tracking in Ha.
    assert (D : pk a <> pk b).
    { intros Eb. apply U. rewrite <- Eb, E. now apply in_map. }
    apply in_objects_save in Ha as (r0 & H0 & E0 & Eu & [[_ Er]|[Eb _]]).
    + apply stop_tracking_incl in Ht.
      destruct (M t r0 Ht H0) as [M1 M2]; [congruence|].
      split; congruence.
    + simpl in Eb. contradiction.
Qed.

Lemma tracked_ok_start o b s :
  (forall r, In r (objects s) -> pk r = pk b -> user r = user b) ->
  tracked_ok o s -> tracked_ok o (start_tracking b s).
Proof.
  intros B [R N M]. constructor.
  - now rewrite objects_start_tracking, identities_save.
  - rewrite tracking_start. destruct (existsb _ _) eqn:E; [assumption|].
    rewrite map_app. apply nodup_snoc; [assumption|]. simpl.
    intros H. apply existsb_archive_eqb in H. congruence.
  - intros t a Ht Ha E. rewrite objects_start_tracking in Ha.
    apply in_objects_save in Ha as (r0 & H0 & E0 & Eu & F).
    assert (T : In t (tracking s) \/ t = set_is_running true b).
    { rewrite tracking_start in Ht. destruct (existsb _ _); [now left|].
      apply in_app_or in Ht as [Ht|[<-|[]]]; auto. }
    destruct T as [T| ->].
    + destruct (M t r0 T H0) as [M1 M2]; [congruence|].
      split; [|congruence].
      destruct F as [[_ F]|[_ F]]; [congruence|exact F].
    + simpl in E. split.
      * destruct F as [[D _]|[_ F]]; [simpl in D; contradiction|exact F].
      * simpl. rewrite <- Eu. f_equal. apply B; congruence.
Qed.

Lemma tracked_ok_stop_loop o l : forall s,
  tracked_ok o s -> tracked_ok o (fold_left (fun s a => stop_tracking a s) l s).
Proof.
  induction l as [|b l IH]; intros s T; simpl; [assumption|].
  now apply IH, tracked_ok_stop.
Qed.

Lemma tracked_ok_start_loop o l : forall s,
  NoDup (map pk o) -> incl l o ->
  tracked_ok o s ->
  tracked_ok o (fold_left (fun s a => start_tracking a s) l s).
Proof.
  induction l as [|b l IH]; intros s N I T; simpl; [assumption|].
  apply IH; [assumption|intros x Hx; apply I; now right|].
  apply tracked_ok_start; [|assumption].
  intros r Hr E. apply (owner_of_identities (objects s) o); auto.
  - apply T.
  - apply I. now left.
Qed.

Lemma list_remove_keeps a l t :
  In t l -> pk t <> pk a -> In t (list_remove a l).
Proof.
  induction l as [|y l IH]; simpl; [easy|]. unfold archive_eqb.
  intros [->|H] D.
  - destruct (Z.eqb_spec (pk t) (pk a)); [contradiction|now left].
  - destruct (pk y =? pk a); [assumption|right; auto].
Qed.

Lemma stop_loop_keeps t l : forall s,
  In t (tracking s) -> (forall b, In b l -> pk b <> pk t) ->
  In t (tracking (fold_left (fun s a => stop_tracking a s) l s)).
Proof.
  induction l as [|b l IH]; intros s Ht D; simpl; [assumption|].
  apply IH; [|intros x Hx; apply D; now right].
  rewrite tracking_stop. destruct (existsb _ _); [|assumption].
  apply list_remove_keeps; [assumption|].
  intros E. apply (D b); [now left|congruence].
Qed.

Lemma start_loop_keeps t l : forall s,
  In t (tracking s) ->
  In t (tracking (fold_left (fun s a => start_tracking a s) l s)).
Proof.
  induction l as [|b l IH]; intros s Ht; simpl; [assumption|].
  apply IH. rewrite tracking_start. destruct (existsb _ _); [assumption|].
  apply in_or_app. now left.
Qed.

Section Invariants.
Variable STATUS_DISABLED : Z.
Variable connect : User -> list Archive -> Opening.

Lemma to_start_incl now s :
  incl (fst (_get_archives_to_start STATUS_DISABLED now s)) (objects s).
Proof.
  intros a H. apply in_to_start in H as [_ H].
  destruct (to_restart s); [now apply in_due in H|apply H].
Qed.

Lemma consistent_tick now s :
  consistent s -> consistent (tick STATUS_DISABLED connect now s).
Proof.
  intros C. unfold tick.
  pose proof (to_start_incl now s) as I.
  pose proof (to_start_state STATUS_DISABLED now s) as T.
  destruct (_get_archives_to_start STATUS_DISABLED now s) as [to_start s0].
  simpl in I, T. destruct T as (To & Tt & Ts & _ & _).
  set (to_stop := filter (fun a => stopped__lte now a && is_running_is true a)
                         (objects s0)).
  assert (C0 : consistent s0).
  { destruct C as [C1 C2 C3 C4].
    constructor; rewrite ?To, ?Tt, ?Ts; assumption. }
  assert (E : forall s', objects s' = objects s0 -> tracking s' = tracking s0 ->
                         streams s' = streams s0 -> consistent s').
  { intros s' Eo Et Es. destruct C0 as [C1 C2 C3 C4].
    constructor; rewrite ?Eo, ?Et, ?Es; assumption. }
  destruct (to_start ++ to_stop) as [|x0 l0] eqn:Q; [now apply E|]. clear Q E.
  assert (E : forall s', consistent s' ->
                         consistent (emit (Sleep LOOP_TIME) s'))
    by (intros s' [C1 C2 C3 C4]; now constructor).
  apply E. clear E.
  pose proof (adjust_connections_fields connect to_start to_stop s0) as A.
  cbv zeta in A. destruct A as (Ao & At & A1o & A1t & A3s & As).
  set (ua := map user (to_start ++ to_stop)) in *.
  set (s1 := fold_left (fun s u => kill u s) ua s0) in *.
  set (s2 := fold_left (fun s a => stop_tracking a s) to_stop s1) in *.
  set (s3 := fold_left (fun s a => start_tracking a s) to_start s2) in *.
  assert (T3 : tracked_ok (objects s) s3).
  { apply tracked_ok_start_loop; [apply C|assumption|].
    apply tracked_ok_stop_loop. destruct C as [C1 C2 C3 C4].
    constructor; rewrite ?A1o, ?A1t, ?To, ?Tt; auto. }
  destruct T3 as [R3 N3 M3].
  constructor.
  - rewrite Ao. change pk with (fun a => fst (identity a)).
    rewrite <- (map_map identity fst), R3, map_map. apply C.
  - now rewrite At.
  - rewrite Ao, At. exact M3.
  - intros k w c Hs Hc. rewrite At.
    apply As in Hs as [Hs|(u & gl & Hg & El & Ek)].
    + apply kill_loop_streams in Hs as [Hs Hk]. rewrite Ts in Hs.
      destruct (channels_tracked s C k w c Hs Hc) as (tr & Htr & Etr & Eu).
      exists tr. split; [|now split].
      apply start_loop_keeps, stop_loop_keeps; [now rewrite A1t, Tt|].
      intros b Hb Eb.
      assert (Hbo : In b (objects s)).
      { unfold to_stop in Hb. rewrite To in Hb. now apply filter_In in Hb. }
      destruct (tracked_running s C tr b Htr Hbo Eb) as [_ Ub].
      apply (Hk (user b)); [|simpl; congruence].
      unfold ua. apply in_map, in_or_app. now right.
    + assert (M : members_ok (tracking s3)
                    (fold_left (regroup ua) (tracking s3) [])).
      { apply regroup_loop_members; [apply incl_refl|]. intros ? ? ? []. }
      rewrite El in Hc. destruct (M u gl c Hg Hc) as [Hin Hu].
      exists c. repeat split; [assumption|congruence].
Qed.

Lemma consistent_init store : NoDup (map pk store) -> consistent (init store).
Proof.
  intros N.
  constructor; simpl; [assumption|constructor| |]; intros; contradiction.
Qed.

Lemma consistent_loop clock : forall s,
  consistent s -> consistent (loop STATUS_DISABLED connect clock s).
Proof.
  induction clock as [|now clock IH]; intros s C; simpl; [assumption|].
  now apply IH, consistent_tick.
Qed.

Lemma ok_step_tick now s : ok_step s (tick STATUS_DISABLED connect now s).
Proof.
  unfold tick.
  pose proof (to_start_state STATUS_DISABLED now s) as T.
  destruct (_get_archives_to_start STATUS_DISABLED now s) as [to_start s0].
  simpl in T. destruct T as (_ & _ & Ts & _ & Tl).
  eapply ok_step_trans; [|now apply ok_step_emit_quiet].
  apply ok_step_trans with (s2 := s0).
  - destruct (to_restart s).
    + rewrite app_nil_r in Tl. now apply ok_step_same.
    + apply ok_step_trans with (s2 := emit (Sleep CHILL_TIME) s);
        [now apply ok_step_emit_quiet|now apply ok_step_same].
  - destruct (to_start ++ _); [apply ok_step_refl|].
    apply ok_step_adjust_connections.
Qed.

Lemma ok_step_loop clock : forall s,
  ok_step s (loop STATUS_DISABLED connect clock s).
Proof.
  induction clock as [|now clock IH]; intros s; simpl.
  - apply ok_step_refl.
  - eapply ok_step_trans; [apply ok_step_tick|apply IH].
Qed.

Lemma registry_ok_init store : registry_ok (init store).
Proof. constructor; simpl; [constructor|constructor|intros x []]. Qed.

Lemma registry_ok_loop clock : forall s,
  registry_ok s -> registry_ok (loop STATUS_DISABLED connect clock s).
Proof.
  induction clock as [|now clock IH]; intros s R; simpl; [assumption|].
  apply IH. now apply (ok_step_tick now s).
Qed.

(** From start-up on, at every point of every run of the loop, no owner
    holds more than one connection. *)
Corollary loop_one_channel_per_owner store clock evs rest owner :
  log (loop STATUS_DISABLED connect clock (init store)) = evs ++ rest ->
  (count_occ Z.eq_dec (live_after [] evs) owner <= 1)%nat.
Proof.
  intros E.
  destruct (ok_step_loop clock (init store) (registry_ok_init store))
    as [_ (evs0 & L & P)].
  simpl in L. rewrite L in E. subst evs0.
  apply NoDup_count_occ. exact (P evs rest eq_refl).
Qed.

(** From start-up on, over a store keyed by [pk], every state is
    consistent. *)
Corollary loop_consistent store clock :
  NoDup (map pk store) ->
  consistent (loop STATUS_DISABLED connect clock (init store)).
Proof. intros N. now apply consistent_loop, consistent_init. Qed.

End Invariants.

Section Claims.
Variable STATUS_DISABLED : Z.
Variable connect : User -> list Archive -> Opening.

(** *** The first-pass guard *)

Lemma first_pass_completed_adjust to_start to_stop s :
  first_pass_completed (adjust_connections connect to_start to_stop s)
  = first_pass_completed s.
Proof.
  unfold adjust_connections.
  assert (K : forall u s, first_pass_completed (kill u s)
                          = first_pass_completed s)
    by (intros u s0; unfold kill; now destruct (dict_mem _ _ _)).
  assert (P : forall a s, first_pass_completed (stop_tracking a s)
                          = first_pass_completed s)
    by (intros a s0; unfold stop_tracking; now destruct (existsb _ _)).
  assert (T : forall a s, first_pass_completed (start_tracking a s)
                          = first_pass_completed s)
    by (intros a s0; unfold start_tracking; now destruct (existsb _ _)).
  assert (O : forall ua s, first_pass_completed (open connect ua s)
                           = first_pass_completed s)
    by (intros [u l] s0; unfold open; now destruct (connect u l)).
  rewrite (fold_keeps first_pass_completed _ O).
  rewrite (fold_keeps first_pass_completed _ T).
  rewrite (fold_keeps first_pass_completed _ P).
  apply (fold_keeps first_pass_completed _ K).
Qed.

Lemma first_pass_completed_tick now s :
  first_pass_completed s = false ->
  first_pass_completed (tick STATUS_DISABLED connect now s) = false.
Proof.
  intros F. unfold tick.
  pose proof (to_start_state STATUS_DISABLED now s) as T.
  destruct (_get_archives_to_start STATUS_DISABLED now s) as [to_start s0].
  simpl in T. destruct T as (_ & _ & _ & T & _). rewrite F in T.
  simpl. destruct (to_start ++ _); [assumption|].
  now rewrite first_pass_completed_adjust.
Qed.

Lemma first_pass_completed_loop clock : forall s,
  first_pass_completed s = false ->
  first_pass_completed (loop STATUS_DISABLED connect clock s) = false.
Proof.
  induction clock as [|now clock IH]; intros s F; simpl; [assumption|].
  now apply IH, first_pass_completed_tick.
Qed.

End Claims.

(** C1 (the code departs from the claim): the first-pass flag is never
    set, on any run of the loop, so the exclusion of not-running archives
    never applies.  Concretely: the store holds one archive whose window
    opens at 5; the first tick runs at 0, and the computation of the second
    tick, at 10, returns the archive although its [is_running] flag is
    false. *)
Theorem first_pass_guard_is_never_set :
  (forall STATUS_DISABLED connect clock store,
      first_pass_completed (loop STATUS_DISABLED connect clock (init store))
      = false) /\
  (let s1 := tick DISABLED connected 0 (init [pending]) in
   tracking s1 = [] /\
   is_running pending = false /\
   fst (_get_archives_to_start DISABLED 10 s1) = [pending]).
Proof.
  split.
  - intros. now apply first_pass_completed_loop.
  - vm_compute. repeat split.
Qed.

(** C2, as stated, fails: both archives of a disabled owner are bound to a
    stream that reports not-running, and neither id is in [to_start]. *)
Lemma restart_of_disabled_owner_is_dropped :
  ~ (forall id, In id (to_restart (died bob)) ->
       In id (map pk (fst (_get_archives_to_start DISABLED 10 (died bob))))).
Proof.
  intros H. specialize (H 7). vm_compute in H.
  apply H. now left.
Qed.

(** C2, amended: the ids gathered are exactly those of the channels of the
    registered streams that report not-running; the computation sleeps for
    [CHILL_TIME] = 30 exactly when at least one id was gathered; and every
    archive of the store that has a gathered id and whose owner is not
    disabled is in [to_start], whatever its [is_running] flag and whether or
    not it is tracked. *)
Theorem restart_detection_widens_to_start :
  forall STATUS_DISABLED now s,
    (forall id, In id (to_restart s) <->
       exists u st c, In (u, st) (streams s) /\ running st = false /\
                      In c (channels st) /\ pk c = id) /\
    CHILL_TIME = 30 /\
    log (snd (_get_archives_to_start STATUS_DISABLED now s))
    = log s ++ match to_restart s with
               | [] => []
               | _ => [Sleep CHILL_TIME]
               end /\
    (forall a, In a (objects s) -> In (pk a) (to_restart s) ->
       status (user a) <> STATUS_DISABLED ->
       In a (fst (_get_archives_to_start STATUS_DISABLED now s))).
Proof.
  intros D now s. repeat split.
  - unfold to_restart. rewrite in_flat_map. intros ([u st] & H & Hid).
    simpl in Hid. destruct (running st) eqn:R; [destruct Hid|].
    apply in_map_iff in Hid as (c & E & Hc). now exists u, st, c.
  - intros (u & st & c & H & R & Hc & E). unfold to_restart.
    apply in_flat_map. exists (u, st). split; [assumption|]. simpl.
    rewrite R, <- E. now apply in_map.
  - apply to_start_state.
  - intros a Ha Hid Hs. apply in_to_start. split; [assumption|].
    destruct (to_restart s); [destruct Hid|]. auto.
Qed.

(** C2, amended, on the spec's example: ids 7 and 9, tracked and marked
    running, on a stream of an enabled owner that reports not-running. *)
Lemma restart_detection_example :
  to_restart (died alice) = [7; 9] /\
  In (cats alice) (fst (_get_archives_to_start DISABLED 10 (died alice))) /\
  In (dogs alice) (fst (_get_archives_to_start DISABLED 10 (died alice))) /\
  log (snd (_get_archives_to_start DISABLED 10 (died alice))) = [Sleep 30].
Proof.
  destruct (restart_detection_widens_to_start DISABLED 10 (died alice))
    as (_ & _ & L & W).
  split; [reflexivity|]. split; [|split].
  - apply W; [now left|now left|discriminate].
  - apply W; [right; now left|right; now left|discriminate].
  - exact L.
Defined.

(** C10: an archive of the store whose id was gathered by restart detection
    is in [to_start] exactly when its owner is not disabled; [started],
    [stopped], [is_running] and the tracked list play no part. *)
Theorem restarted_ids_bypass_the_window :
  forall STATUS_DISABLED now s a,
    In a (objects s) -> In (pk a) (to_restart s) ->
    (In a (fst (_get_archives_to_start STATUS_DISABLED now s)) <->
     status (user a) <> STATUS_DISABLED).
Proof.
  intros D now s a Ha Hid. rewrite in_to_start.
  destruct (to_restart s); [destruct Hid|]. tauto.
Qed.

(** C10 on a sample: at time 10, an archive that starts at 50 and stopped
    at 5. *)
Lemma restarted_outside_its_window :
  10 < started odd /\ stopped odd = Some 5 /\
  In odd (fst (_get_archives_to_start DISABLED 10 odd_died)).
Proof.
  split; [reflexivity|]. split; [reflexivity|].
  apply (restarted_ids_bypass_the_window DISABLED 10 odd_died odd).
  - now left.
  - now left.
  - discriminate.
Defined.

(** ** Shutdown *)

Lemma drain_live ks : forall l,
  NoDup l -> incl l ks ->
  fold_left (fun l k => remove_first k l) ks l = [].
Proof.
  induction ks as [|k ks IH]; intros l N I; simpl.
  - destruct l as [|x l]; [reflexivity|]. destruct (I x). now left.
  - apply IH; [now apply remove_first_nodup|].
    intros x Hx. pose proof (remove_first_incl _ _ _ Hx) as Hl.
    destruct (I x Hl) as [<-|H]; [|exact H].
    now apply remove_first_gone in Hx.
Qed.

Lemma exit_fold (m : list (User * Stream)) : forall s,
  let s' := fold_left (fun s us => emit (CloseLog (fst us))
                                     (emit (Disconnect (fst us)) s)) m s in
  streams s' = streams s /\ objects s' = objects s /\
  tracking s' = tracking s /\
  log s' = log s ++ flat_map (fun us => [Disconnect (fst us);
                                         CloseLog (fst us)]) m /\
  live s' = fold_left (fun l k => remove_first k l) (owners m) (live s).
Proof.
  induction m as [|us m IH]; intros s; simpl.
  - rewrite app_nil_r. auto.
  - destruct (IH (emit (CloseLog (fst us)) (emit (Disconnect (fst us)) s)))
      as (E1 & E2 & E3 & E4 & E5).
    cbv zeta in *. rewrite E1, E2, E3, E4, E5. simpl.
    rewrite <- !app_assoc. repeat split.
    rewrite live_emit_quiet, live_emit by exact I. reflexivity.
Qed.

(** X1: after [exit], started in a state whose registry holds every
    connection, no connection is left; each registered stream was
    disconnected and then had its log closed, in registry order, and the
    registry itself is not emptied. *)
Theorem exit_leaves_no_connection :
  forall s,
    registry_ok s ->
    live (exit s) = [] /\
    streams (exit s) = streams s /\
    log (exit s)
    = log s ++ flat_map (fun us : User * Stream =>
                           [Disconnect (fst us); CloseLog (fst us)])
                        (streams s).
Proof.
  intros s [N _ I].
  destruct (exit_fold (streams s) s) as (E1 & _ & _ & E4 & E5).
  cbv zeta in *. unfold exit. rewrite E1, E4, E5. repeat split.
  now apply drain_live.
Qed.

(** X1 on a sample: one owner is connected when the collector exits. *)
Lemma exit_leaves_no_connection_sample :
  registry_ok (loop DISABLED connected [0; 10] (init [early; late])) /\
  live (loop DISABLED connected [0; 10] (init [early; late])) = [1] /\
  live (exit (loop DISABLED connected [0; 10] (init [early; late]))) = [].
Proof.
  assert (R : registry_ok (loop DISABLED connected [0; 10]
                             (init [early; late]))).
  { apply registry_ok_loop, registry_ok_init. }
  split; [exact R|]. split; [vm_compute; reflexivity|].
  exact (proj1 (exit_leaves_no_connection _ R)).
Defined.

(** ** What the loop writes to the store *)

Lemma unflagged_save a s :
  map unflagged (objects (save a s)) = map unflagged (objects s).
Proof.
  simpl. rewrite map_map. apply map_ext. intros r.
  now destruct (pk r =? pk a).
Qed.

Lemma unflagged_stop_tracking a s :
  map unflagged (objects (stop_tracking a s)) = map unflagged (objects s).
Proof. rewrite objects_stop_tracking. apply unflagged_save. Qed.

Lemma unflagged_start_tracking a s :
  map unflagged (objects (start_tracking a s)) = map unflagged (objects s).
Proof. rewrite objects_start_tracking. apply unflagged_save. Qed.

Section Store.
Variable STATUS_DISABLED : Z.
Variable connect : User -> list Archive -> Opening.

Lemma unflagged_adjust_connections to_start to_stop s :
  map unflagged (objects (adjust_connections connect to_start to_stop s))
  = map unflagged (objects s).
Proof.
  destruct (adjust_connections_fields connect to_start to_stop s)
    as (Ao & _ & A1o & _).
  rewrite Ao.
  rewrite (fold_keeps (fun s => map unflagged (objects s)) _
             (fun x s => unflagged_start_tracking x s)).
  rewrite (fold_keeps (fun s => map unflagged (objects s)) _
             (fun x s => unflagged_stop_tracking x s)).
  now rewrite A1o.
Qed.

Lemma unflagged_tick now s :
  map unflagged (objects (tick STATUS_DISABLED connect now s))
  = map unflagged (objects s).
Proof.
  unfold tick.
  pose proof (to_start_state STATUS_DISABLED now s) as T.
  destruct (_get_archives_to_start STATUS_DISABLED now s) as [to_start s0].
  simpl in T. destruct T as (To & _). rewrite <- To.
  destruct (to_start ++ _); [reflexivity|].
  apply unflagged_adjust_connections.
Qed.

(** X2: whatever the clock and the upstream do, the loop writes nothing to
    the store but [is_running] flags: the rows, their order and every other
    field stay as they were. *)
Theorem loop_writes_only_the_running_flag :
  forall clock s,
    map unflagged (objects (loop STATUS_DISABLED connect clock s))
    = map unflagged (objects s).
Proof.
  induction clock as [|now clock IH]; intros s; simpl; [reflexivity|].
  rewrite IH. apply unflagged_tick.
Qed.

End Store.

(** ** Tracking and untracking *)

Lemma list_remove_snoc a l :
  ~ In (pk a) (map pk l) ->
  list_remove a (l ++ [set_is_running true a]) = l.
Proof.
  induction l as [|x l IH]; intros H; simpl.
  - unfold archive_eqb. simpl. now rewrite Z.eqb_refl.
  - unfold archive_eqb at 1. destruct (pk x =? pk a) eqn:E.
    + apply Z.eqb_eq in E. destruct H. now left.
    + rewrite IH; [reflexivity|]. intros K. apply H. now right.
Qed.

Lemma existsb_archive_eqb_false a l :
  ~ In (pk a) (map pk l) -> existsb (archive_eqb a) l = false.
Proof.
  intros H. destruct (existsb (archive_eqb a) l) eqn:E; [|reflexivity].
  now apply existsb_archive_eqb in E.
Qed.

(** X3: tracking an archive that is not tracked and untracking it again
    gives back the tracked list as it was, and leaves the archive's row
    flagged as not running; two saves are issued, of [True] then of
    [False]. *)
Theorem stop_tracking_undoes_start_tracking :
  forall a s,
    untracked (pk a) s ->
    let s' := stop_tracking a (start_tracking a s) in
    tracking s' = tracking s /\
    not_running (pk a) s' /\
    log s' = log s ++ [Save (pk a) true; Save (pk a) false].
Proof.
  intros a s U s'. repeat split.
  - unfold s'. rewrite tracking_stop, tracking_start.
    rewrite (existsb_archive_eqb_false a (tracking s) U).
    assert (E : existsb (archive_eqb a)
                  (tracking s ++ [set_is_running true a]) = true).
    { apply existsb_archive_eqb. rewrite map_app. apply in_or_app.
      right. now left. }
    rewrite E. now apply list_remove_snoc.
  - apply not_running_stop. now right.
  - unfold s', stop_tracking, start_tracking.
    destruct (existsb _ _); destruct (existsb _ _); simpl;
      now rewrite <- app_assoc.
Qed.

(** X3 on a sample: the pending archive, tracked and untracked again. *)
Lemma stop_tracking_undoes_start_tracking_sample :
  untracked (pk pending) (init [pending]) /\
  tracking (stop_tracking pending (start_tracking pending (init [pending])))
  = [].
Proof.
  assert (U : untracked (pk pending) (init [pending])) by (intros []).
  split; [exact U|].
  exact (proj1 (stop_tracking_undoes_start_tracking pending _ U)).
Defined.

(** ** Disabled owners *)

Section Disabled.
Variable STATUS_DISABLED : Z.
Variable connect : User -> list Archive -> Opening.

Lemma untracked_stop_fold k l : forall s,
  untracked k s ->
  untracked k (fold_left (fun s a => stop_tracking a s) l s).
Proof.
  induction l as [|b l IH]; intros s U; simpl; [assumption|].
  now apply IH, untracked_stop.
Qed.

Lemma not_running_stop_fold k l : forall s,
  not_running k s ->
  not_running k (fold_left (fun s a => stop_tracking a s) l s).
Proof. intros s H. apply not_running_stop_loop. now left. Qed.

(** X4: a tick never starts an archive whose owner is disabled: if the
    archive is not tracked it stays untracked, and if its row is not
    flagged as running it stays so. *)
Theorem disabled_owner_is_never_started :
  forall now s a,
    NoDup (map pk (objects s)) ->
    In a (objects s) ->
    status (user a) = STATUS_DISABLED ->
    let s' := tick STATUS_DISABLED connect now s in
    (untracked (pk a) s -> untracked (pk a) s') /\
    (not_running (pk a) s -> not_running (pk a) s').
Proof.
  intros now s a N Ha D. unfold tick.
  assert (F : ~ In (pk a)
                (map pk (fst (_get_archives_to_start STATUS_DISABLED now s)))).
  { intros H. apply in_map_iff in H as (b & Eb & Hb).
    pose proof (to_start_incl STATUS_DISABLED now s b Hb) as Ho.
    assert (b = a) by (eapply nodup_pk_eq; eassumption). subst b.
    apply in_to_start in Hb as [Hb _]. now apply Hb. }
  pose proof (to_start_state STATUS_DISABLED now s) as T.
  destruct (_get_archives_to_start STATUS_DISABLED now s) as [to_start s0].
  simpl in F, T. destruct T as (To & Tt & _).
  set (to_stop := filter (fun a => stopped__lte now a && is_running_is true a)
                         (objects s0)).
  destruct (to_start ++ to_stop) as [|x0 l0] eqn:E.
  { unfold untracked, not_running. simpl. rewrite To, Tt. auto. }
  clear E.
  destruct (adjust_connections_fields connect to_start to_stop s0)
    as (Ao & At & A1o & A1t & _).
  unfold untracked, not_running. simpl. rewrite Ao, At. split; intros H.
  - apply untracked_start_loop; [assumption|].
    apply untracked_stop_fold. unfold untracked. now rewrite A1t, Tt.
  - apply not_running_start_loop; [assumption|].
    apply not_running_stop_fold. unfold not_running. now rewrite A1o, To.
Qed.

End Disabled.

(** X4 on a sample: a store with an archive of a disabled owner, both
    windows open. *)
Lemma disabled_owner_is_never_started_sample :
  NoDup (map pk [idle; pending]) /\
  In idle [idle; pending] /\
  status (user idle) = DISABLED /\
  untracked (pk idle) (tick DISABLED connected 10 (init [idle; pending])).
Proof.
  assert (N : NoDup (map pk [idle; pending])).
  { repeat constructor; simpl; intuition discriminate. }
  assert (I : In idle [idle; pending]) by now left.
  repeat split; [exact N|exact I|].
  apply (disabled_owner_is_never_started DISABLED connected 10
           (init [idle; pending]) idle N I eq_refl).
  intros [].
Defined.

(** ** The wait after each attempt to connect *)

Lemma paced_app l1 l2 : paced l1 -> paced l2 -> paced (l1 ++ l2).
Proof.
  induction l1 as [|e r IH]; intros P1 P2; simpl; [assumption|].
  destruct P1 as [H P1]. split; [|now apply IH].
  intros A. destruct (H A) as [r' ->]. now exists (r' ++ l2).
Qed.

Lemma paced_no_attempt l : Forall (fun e => ~ is_attempt e) l -> paced l.
Proof.
  induction 1 as [|e r H _ IH]; simpl; [exact I|].
  split; [intros A; now destruct H|assumption].
Qed.

Lemma paced_split p e r :
  paced (p ++ e :: r) -> is_attempt e ->
  exists r', r = Sleep LISTENER_WAIT_TIME :: r'.
Proof.
  induction p as [|x p IH]; simpl; intros [H P] A; [now apply H|now apply IH].
Qed.

Lemma paced_kills l : Forall is_kill l -> paced l.
Proof.
  intros H. apply paced_no_attempt. eapply Forall_impl; [|exact H].
  now intros [].
Qed.

Lemma paced_saves l : Forall is_save l -> paced l.
Proof.
  intros H. apply paced_no_attempt. eapply Forall_impl; [|exact H].
  now intros [].
Qed.

Section Pacing.
Variable STATUS_DISABLED : Z.
Variable connect : User -> list Archive -> Opening.

Lemma log_open ua s :
  log (open connect ua s)
  = log s ++ [attempt connect ua; Sleep LISTENER_WAIT_TIME].
Proof.
  destruct ua as [u l]. unfold open, attempt. simpl.
  destruct (connect u l); simpl; now rewrite <- app_assoc.
Qed.

Lemma log_open_fold groups : forall s,
  log (fold_left (fun s ua => open connect ua s) groups s)
  = log s ++ flat_map (fun ua => [attempt connect ua;
                                  Sleep LISTENER_WAIT_TIME]) groups.
Proof.
  induction groups as [|ua groups IH]; intros s; simpl.
  - now rewrite app_nil_r.
  - rewrite IH, log_open, <- app_assoc. reflexivity.
Qed.

Lemma paced_opens (groups : list (User * list Archive)) :
  paced (flat_map (fun ua => [attempt connect ua;
                              Sleep LISTENER_WAIT_TIME]) groups).
Proof.
  induction groups as [|ua groups IH]; simpl; [exact I|].
  split; [intros _; eauto|]. split; [intros []|assumption].
Qed.

Lemma paced_adjust_connections to_start to_stop s :
  exists evs,
    log (adjust_connections connect to_start to_stop s) = log s ++ evs /\
    paced evs.
Proof.
  unfold adjust_connections. rewrite log_open_fold.
  set (ua := map user (to_start ++ to_stop)).
  destruct (log_kill_loop ua s) as (kills & Ek & Fk & _).
  set (s1 := fold_left (fun s u => kill u s) ua s) in *.
  destruct (log_save_loop stop_tracking log_stop_tracking to_stop s1)
    as (stops & Es & Fs).
  set (s2 := fold_left (fun s a => stop_tracking a s) to_stop s1) in *.
  destruct (log_save_loop start_tracking log_start_tracking to_start s2)
    as (starts & Et & Ft).
  rewrite Et, Es, Ek, <- !app_assoc. eexists. split; [reflexivity|].
  auto using paced_app, paced_kills, paced_saves, paced_opens.
Qed.

Lemma paced_tick now s :
  exists evs,
    log (tick STATUS_DISABLED connect now s) = log s ++ evs /\ paced evs.
Proof.
  unfold tick.
  pose proof (to_start_state STATUS_DISABLED now s) as T.
  destruct (_get_archives_to_start STATUS_DISABLED now s) as [to_start s0].
  simpl in T. destruct T as (_ & _ & _ & _ & Tl).
  assert (P0 : paced match to_restart s with
                     | [] => []
                     | _ => [Sleep CHILL_TIME]
                     end).
  { destruct (to_restart s); simpl; [exact I|]. split; [intros []|exact I]. }
  assert (P1 : paced [Sleep LOOP_TIME]) by (split; [intros []|exact I]).
  destruct (to_start ++ _).
  - simpl. rewrite Tl, <- app_assoc. eexists. split; [reflexivity|].
    now apply paced_app.
  - destruct (paced_adjust_connections to_start
                (filter (fun a => stopped__lte now a && is_running_is true a)
                        (objects s0)) s0) as (evs & E & P).
    simpl. rewrite E, Tl, <- !app_assoc. eexists. split; [reflexivity|].
    auto using paced_app.
Qed.

Lemma paced_loop clock : forall s,
  exists evs,
    log (loop STATUS_DISABLED connect clock s) = log s ++ evs /\ paced evs.
Proof.
  induction clock as [|now clock IH]; intros s; simpl.
  - exists []. now rewrite app_nil_r.
  - destruct (IH (tick STATUS_DISABLED connect now s)) as (evs2 & E2 & P2).
    destruct (paced_tick now s) as (evs1 & E1 & P1).
    rewrite E2, E1, <- app_assoc. eexists. split; [reflexivity|].
    now apply paced_app.
Qed.

(** X5: on every run of the loop, each attempt to open a connection,
    whether it went through ([Filter]) or was alerted ([Alert]), is followed
    at once by a wait of [LISTENER_WAIT_TIME] seconds. *)
Theorem loop_waits_after_each_attempt :
  forall clock s before e after,
    log (loop STATUS_DISABLED connect clock s)
    = log s ++ before ++ e :: after ->
    is_attempt e ->
    exists rest, after = Sleep LISTENER_WAIT_TIME :: rest.
Proof.
  intros clock s p e r E A.
  destruct (paced_loop clock s) as (evs & L & P).
  rewrite L in E. apply app_inv_head in E. subst evs.
  now apply (paced_split p e r).
Qed.

End Pacing.

(** X5 on a sample: one pass that opens a connection. *)
Lemma loop_waits_after_each_attempt_sample :
  log (loop DISABLED connected [10] (init [pending]))
  = log (init [pending]) ++ [Save 3 true] ++ Filter alice ["rocq"%string]
      :: [Sleep 5; Sleep 1] /\
  is_attempt (Filter alice ["rocq"%string]) /\
  exists rest, [Sleep 5; Sleep 1] = Sleep LISTENER_WAIT_TIME :: rest.
Proof.
  assert (E : log (loop DISABLED connected [10] (init [pending]))
              = log (init [pending]) ++ [Save 3 true]
                ++ Filter alice ["rocq"%string] :: [Sleep 5; Sleep 1])
    by (vm_compute; reflexivity).
  split; [exact E|split; [exact I|]].
  exact (loop_waits_after_each_attempt DISABLED connected [10]
           (init [pending]) _ _ _ E I).
Defined.

(** ** The registry after [adjust_connections] *)

Lemma user_eqb_refl u : user_eqb u u = true.
Proof. apply Z.eqb_refl. Qed.

Lemma user_eqb_sym u v : user_eqb u v = user_eqb v u.
Proof. apply Z.eqb_sym. Qed.

Lemma user_eqb_same u k x :
  user_eqb u k = true -> user_eqb u x = user_eqb k x.
Proof. unfold user_eqb. intros E. apply Z.eqb_eq in E. now rewrite E. Qed.

Lemma user_eqb_same_r u k x :
  user_eqb k x = true -> user_eqb u k = user_eqb u x.
Proof. unfold user_eqb. intros E. apply Z.eqb_eq in E. now rewrite E. Qed.

Lemma dict_get_item {V} u (m : list (User * V)) :
  dict_get user_eqb u m = option_map snd (dict_item u m).
Proof.
  induction m as [|[k v] m IH]; simpl; [reflexivity|].
  now destruct (user_eqb u k).
Qed.

Lemma dict_mem_item {V} u (m : list (User * V)) :
  dict_mem user_eqb u m
  = match dict_item u m with Some _ => true | None => false end.
Proof.
  induction m as [|[k v] m IH]; simpl; [reflexivity|].
  now destruct (user_eqb u k).
Qed.

Lemma dict_item_same {V} u k (m : list (User * V)) :
  user_eqb u k = true -> dict_item u m = dict_item k m.
Proof.
  intros E. induction m as [|[k' v'] m IH]; simpl; [reflexivity|].
  now rewrite IH, (user_eqb_same u k k' E).
Qed.

Lemma dict_item_set {V} u k (v : V) (m : list (User * V)) :
  dict_item u (dict_set user_eqb k v m)
  = if user_eqb u k
    then Some (match dict_item u m with Some (k0, _) => k0 | None => k end, v)
    else dict_item u m.
Proof.
  induction m as [|[k' v'] m IH]; simpl.
  - now destruct (user_eqb u k).
  - destruct (user_eqb k k') eqn:K; simpl.
    + rewrite <- (user_eqb_same_r u k k' K).
      now destruct (user_eqb u k).
    + destruct (user_eqb u k') eqn:U'; [|exact IH].
      destruct (user_eqb u k) eqn:U; [|reflexivity].
      rewrite (user_eqb_same u k k' U), K in U'. discriminate.
Qed.

Lemma dict_item_del {V} u k (m : list (User * V)) :
  dict_item u (dict_del user_eqb k m)
  = if user_eqb u k then None else dict_item u m.
Proof.
  induction m as [|[k' v'] m IH]; simpl.
  - now destruct (user_eqb u k).
  - destruct (user_eqb k k') eqn:K; simpl.
    + rewrite IH, <- (user_eqb_same_r u k k' K).
      now destruct (user_eqb u k).
    + destruct (user_eqb u k') eqn:U'; [|exact IH].
      destruct (user_eqb u k) eqn:U; [|reflexivity].
      rewrite (user_eqb_same u k k' U), K in U'. discriminate.
Qed.

Lemma dict_item_absent {V} u (m : list (User * V)) :
  ~ In (user_pk u) (owners m) -> dict_item u m = None.
Proof.
  intros H. pose proof (dict_mem_item u m) as E.
  destruct (dict_item u m); [|reflexivity].
  now apply dict_mem_owners in E.
Qed.

Lemma existsb_user_eqb_same u k l :
  user_eqb u k = true ->
  existsb (user_eqb u) l = existsb (user_eqb k) l.
Proof.
  intros E. induction l as [|x l IH]; simpl; [reflexivity|].
  now rewrite IH, (user_eqb_same u k x E).
Qed.

Lemma dict_item_kill_loop us : forall s u,
  dict_item u (streams (fold_left (fun s u => kill u s) us s))
  = if existsb (user_eqb u) us then None else dict_item u (streams s).
Proof.
  induction us as [|k us IH]; intros s u; simpl; [reflexivity|].
  rewrite IH, kill_streams, dict_item_del.
  destruct (user_eqb u k); simpl; [|reflexivity].
  now destruct (existsb _ us).
Qed.

Lemma dict_item_regroup ua g a u :
  dict_item u (regroup ua g a)
  = if existsb (user_eqb (user a)) ua && user_eqb u (user a)
    then merge (dict_item u g) [a]
    else dict_item u g.
Proof.
  unfold regroup. destruct (existsb _ ua); simpl; [|reflexivity].
  set (g' := if dict_mem user_eqb (user a) g then g
             else dict_set user_eqb (user a) [] g).
  assert (G : dict_get user_eqb (user a) g'
              = Some match dict_item (user a) g with
                     | Some (_, l) => l
                     | None => []
                     end
              /\ forall x, dict_item x g'
                 = if dict_mem user_eqb (user a) g then dict_item x g
                   else if user_eqb x (user a) then Some (user a, [])
                   else dict_item x g).
  { unfold g'. rewrite dict_mem_item, dict_get_item.
    destruct (dict_item (user a) g) as [[k0 l0]|] eqn:E.
    - now rewrite E.
    - rewrite dict_item_set, user_eqb_refl, E. split; [reflexivity|].
      intros x. rewrite dict_item_set.
      destruct (user_eqb x (user a)) eqn:X; [|reflexivity].
      now rewrite (dict_item_same x (user a) g X), E. }
  destruct G as [G1 G2]. rewrite G1, dict_item_set, G2.
  destruct (user_eqb u (user a)) eqn:U; simpl.
  - rewrite (dict_item_same u (user a) g U), dict_mem_item.
    now destruct (dict_item (user a) g) as [[k0 l0]|].
  - now destruct (dict_mem user_eqb (user a) g).
Qed.

Lemma merge_snoc o a l :
  merge (merge o [a]) l = merge o (a :: l).
Proof.
  destruct l as [|b l]; simpl; [reflexivity|].
  destruct o as [[k l0]|]; simpl; [|reflexivity].
  now rewrite <- app_assoc.
Qed.

Lemma dict_item_regroup_loop ua l : forall g u,
  dict_item u (fold_left (regroup ua) l g)
  = if existsb (user_eqb u) ua then merge (dict_item u g) (owned_by u l)
    else dict_item u g.
Proof.
  induction l as [|a l IH]; intros g u; simpl.
  - now destruct (existsb _ ua).
  - rewrite IH, dict_item_regroup.
    rewrite (user_eqb_sym (user a) u).
    destruct (user_eqb u (user a)) eqn:U.
    + rewrite <- (existsb_user_eqb_same u (user a) ua U).
      destruct (existsb (user_eqb u) ua); simpl; [|reflexivity].
      apply merge_snoc.
    + rewrite andb_false_r. reflexivity.
Qed.

Section Registry.
Variable connect : User -> list Archive -> Opening.

Lemma streams_open ua s :
  streams (open connect ua s)
  = match registered connect ua with
    | Some st => dict_set user_eqb (fst ua) st (streams s)
    | None => streams s
    end.
Proof.
  destruct ua as [u l]. unfold open, registered. simpl.
  now destruct (connect u l).
Qed.

Lemma dict_get_open_loop groups : forall s u,
  NoDup (owners groups) ->
  dict_get user_eqb u
    (streams (fold_left (fun s ua => open connect ua s) groups s))
  = match dict_item u groups with
    | Some ua => match registered connect ua with
                 | Some st => Some st
                 | None => dict_get user_eqb u (streams s)
                 end
    | None => dict_get user_eqb u (streams s)
    end.
Proof.
  induction groups as [|[k l] groups IH]; intros s u N; [reflexivity|].
  cbn [fold_left]. unfold owners in N. simpl in N.
  inversion N as [|? ? Nk N']; subst. rewrite (IH _ _ N'), streams_open.
  unfold dict_item at 2. cbn [find fst]. fold (dict_item u groups).
  destruct (user_eqb u k) eqn:U.
  - rewrite dict_item_absent.
    2:{ unfold user_eqb in U. apply Z.eqb_eq in U. now rewrite U. }
    destruct (registered connect (k, l)); [|reflexivity].
    now rewrite dict_get_item, dict_item_set, U.
  - destruct (registered connect (k, l)) as [st|]; [|reflexivity].
    rewrite !dict_get_item, dict_item_set, U. reflexivity.
Qed.

Lemma registry_after_adjust to_start to_stop s u :
  let s' := adjust_connections connect to_start to_stop s in
  let group := owned_by u (tracking s') in
  dict_get user_eqb u (streams s')
  = if existsb (user_eqb u) (map user (to_start ++ to_stop))
    then match group with
         | [] => None
         | a0 :: _ => registered connect (user a0, group)
         end
    else dict_get user_eqb u (streams s).
Proof.
  intros s' group.
  destruct (adjust_connections_fields connect to_start to_stop s)
    as (_ & At & _ & _ & A3s & _).
  fold s' in At. unfold group. rewrite At. unfold s', adjust_connections.
  set (ua := map user (to_start ++ to_stop)) in *.
  set (s1 := fold_left (fun s u => kill u s) ua s) in *.
  set (s2 := fold_left (fun s a => stop_tracking a s) to_stop s1) in *.
  set (s3 := fold_left (fun s a => start_tracking a s) to_start s2) in *.
  rewrite dict_get_open_loop.
  2:{ apply (regroup_loop_ok ua (tracking s3) []). split; [constructor|].
      intros k []. }
  rewrite dict_item_regroup_loop, A3s, dict_get_item.
  unfold s1. rewrite dict_item_kill_loop. simpl.
  destruct (existsb (user_eqb u) ua).
  - destruct (owned_by u (tracking s3)) as [|a0 r]; simpl; [reflexivity|].
    now destruct (registered connect (user a0, a0 :: r)).
  - now rewrite dict_get_item.
Qed.

(** X6: the registry after [adjust_connections].  An owner not among the
    users adjusted keeps the entry it had.  An adjusted owner with no
    tracked archive has no entry.  An adjusted owner with tracked archives
    gets one stream carrying exactly these, in tracked order, if the
    connection opens; the same stream, not running, if [filter] raises; and
    no entry at all if authenticating or building the stream raises. *)
Theorem adjust_connections_registers_one_stream_per_owner :
  forall to_start to_stop s u,
    let s' := adjust_connections connect to_start to_stop s in
    let group := owned_by u (tracking s') in
    dict_get user_eqb u (streams s')
    = if existsb (user_eqb u) (map user (to_start ++ to_stop))
      then match group with
           | [] => None
           | a0 :: _ =>
               match connect (user a0) group with
               | Opened => Some (mkStream true group)
               | Broken => Some (mkStream false group)
               | Refused => None
               end
           end
      else dict_get user_eqb u (streams s).
Proof.
  intros to_start to_stop s u s' group.
  pose proof (registry_after_adjust to_start to_stop s u) as H.
  cbv zeta in H. fold s' in H. fold group in H. rewrite H.
  destruct (existsb (user_eqb u) (map user (to_start ++ to_stop)));
    [|reflexivity].
  destruct group as [|a0 r]; [reflexivity|].
  unfold registered. cbn [fst snd].
  now destruct (connect (user a0) (a0 :: r)).
Qed.

End Registry.

(** ** One channel per owner *)

Lemma log_kill_loop_touched us : forall s,
  exists kills,
    log (fold_left (fun s u => kill u s) us s) = log s ++ kills /\
    forall e, In e kills ->
      exists v, In v us /\ (e = Disconnect v \/ e = CloseLog v).
Proof.
  induction us as [|u us IH]; intros s; simpl.
  - exists []. rewrite app_nil_r. split; [reflexivity|intros e []].
  - destruct (IH (kill u s)) as (kills & L & K).
    assert (K' : forall e, In e kills ->
                   exists v, (u = v \/ In v us) /\
                             (e = Disconnect v \/ e = CloseLog v)).
    { intros e He. destruct (K e He) as (v & Hv & E). exists v. auto. }
    destruct (dict_mem user_eqb u (streams s)) eqn:M.
    + exists ([Disconnect u; CloseLog u] ++ kills). split.
      * rewrite L. unfold kill. rewrite M. simpl. now rewrite <- !app_assoc.
      * intros e [<-|[<-|He]]; [exists u; auto..|now apply K'].
    + exists kills. split; [|exact K'].
      rewrite L. unfold kill. now rewrite M.
Qed.

Lemma touched_has_user u us :
  existsb (user_eqb u) us = true ->
  exists v, In v us /\ user_pk v = user_pk u.
Proof.
  intros H. apply existsb_exists in H as (v & Hv & E).
  exists v. split; [assumption|]. symmetry. now apply Z.eqb_eq.
Qed.

(** C3: when the registry agrees with the connections made so far,
    reconciliation keeps it so, and at every point of the log it writes no
    owner holds more than one connection.  Its first loop disconnects, and
    closes the log of, the stream of every touched owner that has one, and
    of no one else, and takes the entry out of the registry: when the loop
    is over no touched owner has an entry or a connection, and every other
    owner has the entry it had, which it keeps to the end.  Then the flags
    are saved.  Only then are connections opened, one attempt per group,
    the groups being keyed by distinct touched owners: the attempts and
    their waits are all the rest of the log, a [Filter] for each group whose
    connection opened and an [Alert] for each other one.  In the end a
    touched owner holds the entry made for the group of its tracked
    archives, or none. *)
Theorem adjust_connections_one_channel_per_owner :
  forall connect to_start to_stop s,
    registry_ok s ->
    let ua := map user (to_start ++ to_stop) in
    let s1 := fold_left (fun s u => kill u s) ua s in
    let s' := adjust_connections connect to_start to_stop s in
    registry_ok s' /\
    (forall evs rest,
        log s' = log s ++ evs ++ rest ->
        forall owner,
          (count_occ Z.eq_dec (live_after [] (log s ++ evs)) owner <= 1)%nat) /\
    (forall u, existsb (user_eqb u) ua = true ->
       dict_get user_eqb u (streams s1) = None /\
       ~ In (user_pk u) (live s1)) /\
    (forall u, existsb (user_eqb u) ua = false ->
       dict_get user_eqb u (streams s1) = dict_get user_eqb u (streams s) /\
       dict_get user_eqb u (streams s') = dict_get user_eqb u (streams s)) /\
    exists kills saves groups,
      log s1 = log s ++ kills /\
      log s' = log s ++ kills ++ saves
               ++ flat_map (fun g => [attempt connect g;
                                      Sleep LISTENER_WAIT_TIME]) groups /\
      Forall is_kill kills /\
      (forall e, In e kills ->
         exists v, In v ua /\ (e = Disconnect v \/ e = CloseLog v)) /\
      (forall u, In u ua -> In (user_pk u) (owners (streams s)) ->
                 exists v, user_pk v = user_pk u /\
                           In (Disconnect v) kills /\ In (CloseLog v) kills) /\
      Forall is_save saves /\
      groups_ok ua groups /\
      NoDup (opened (flat_map (fun g => [attempt connect g;
                                         Sleep LISTENER_WAIT_TIME]) groups)) /\
      forall u, existsb (user_eqb u) ua = true ->
        dict_item u groups
        = match owned_by u (tracking s') with
          | [] => None
          | a0 :: _ => Some (user a0, owned_by u (tracking s'))
          end /\
        dict_get user_eqb u (streams s')
        = match owned_by u (tracking s') with
          | [] => None
          | a0 :: _ => registered connect (user a0, owned_by u (tracking s'))
          end.
Proof.
  intros connect to_start to_stop s R ua s1 s'.
  destruct (ok_step_adjust_connections connect to_start to_stop s R)
    as [R' (evs0 & L & P)].
  assert (R1 : registry_ok s1).
  { apply (ok_step_fold (fun s u => kill u s)
             (fun x s0 => ok_step_kill x s0) ua s R). }
  assert (G : forall u,
             dict_get user_eqb u (streams s')
             = if existsb (user_eqb u) ua
               then match owned_by u (tracking s') with
                    | [] => None
                    | a0 :: _ =>
                        registered connect (user a0, owned_by u (tracking s'))
                    end
               else dict_get user_eqb u (streams s)).
  { intros u. exact (registry_after_adjust connect to_start to_stop s u). }
  assert (K1 : forall u,
             dict_get user_eqb u (streams s1)
             = if existsb (user_eqb u) ua then None
               else dict_get user_eqb u (streams s)).
  { intros u. unfold s1. rewrite !dict_get_item, dict_item_kill_loop.
    now destruct (existsb (user_eqb u) ua). }
  split; [assumption|]. split.
  { intros evs rest E owner. unfold s' in E.
    rewrite L in E. apply app_inv_head in E.
    apply NoDup_count_occ. now apply (P evs rest). }
  split.
  { intros u T. split; [now rewrite K1, T|].
    intros H. apply (live_registered s1 R1) in H.
    apply kill_loop_absent in H as [_ H].
    destruct (touched_has_user u ua T) as (v & Hv & E).
    now apply (H v Hv). }
  split.
  { intros u T. split; [now rewrite K1, T|now rewrite G, T]. }
  destruct (adjust_connections_fields connect to_start to_stop s)
    as (_ & At & _).
  fold ua in At. fold s1 in At. fold s' in At.
  set (s2 := fold_left (fun s a => stop_tracking a s) to_stop s1) in *.
  set (s3 := fold_left (fun s a => start_tracking a s) to_start s2) in *.
  set (groups := fold_left (regroup ua) (tracking s3) []).
  destruct (log_kill_loop ua s) as (kills & Ek & Fk & Kd). fold s1 in Ek.
  destruct (log_kill_loop_touched ua s) as (kills2 & Ek2 & Kt).
  fold s1 in Ek2. rewrite Ek in Ek2. apply app_inv_head in Ek2.
  subst kills2.
  destruct (log_save_loop stop_tracking log_stop_tracking to_stop s1)
    as (stops & Es & Fs). fold s2 in Es.
  destruct (log_save_loop start_tracking log_start_tracking to_start s2)
    as (starts & Et & Ft). fold s3 in Et.
  assert (Go : groups_ok ua groups).
  { apply (regroup_loop_ok ua (tracking s3) []). split; [constructor|].
    intros k []. }
  assert (Lo : log s' = log s3 ++ flat_map (fun g => [attempt connect g;
                                  Sleep LISTENER_WAIT_TIME]) groups).
  { apply (log_open_fold connect groups s3). }
  exists kills, (stops ++ starts), groups.
  split; [exact Ek|]. split.
  { rewrite Lo, Et, Es, Ek, <- !app_assoc. reflexivity. }
  split; [exact Fk|]. split; [exact Kt|]. split; [exact Kd|].
  split; [now apply Forall_app|]. split; [exact Go|]. split.
  { destruct (log_open_loop connect groups s3) as (opens & Eo & _ & _ & No).
    change (log (fold_left (fun s ua => open connect ua s) groups s3))
      with (log s') in Eo.
    rewrite Lo in Eo. apply app_inv_head in Eo. rewrite Eo.
    apply No, Go. }
  intros u T. split; [|now rewrite G, T].
  unfold groups. rewrite dict_item_regroup_loop, T, At.
  now destruct (owned_by u (tracking s3)).
Qed.

(** C3 on a sample: the owner's stream runs for the archive with window
    [0, 100); the one with window [5, 50) is started next. *)
Lemma overlapping_windows_one_channel :
  let s := tick DISABLED connected 0 (init [early; late]) in
  let s' := adjust_connections connected [late] [] s in
  map pk (tracking s') = [1; 2] /\
  owners (streams s') = [1] /\
  forall evs rest, log s' = log s ++ evs ++ rest ->
    (count_occ Z.eq_dec (live_after [] (log s ++ evs)) 1%Z <= 1)%nat.
Proof.
  intros s s'.
  assert (R : registry_ok s).
  { constructor; vm_compute.
    - repeat constructor. intros [].
    - repeat constructor. intros [].
    - intros x H. exact H. }
  split; [reflexivity|]. split; [reflexivity|].
  intros evs rest E.
  exact (proj1 (proj2 (adjust_connections_one_channel_per_owner
                         connected [late] [] s R)) evs rest E 1%Z).
Defined.

(** ** Archives left without a stream *)

Lemma start_tracking_tracks a s :
  In (pk a) (map pk (tracking (start_tracking a s))).
Proof.
  rewrite tracking_start.
  destruct (existsb (archive_eqb a) (tracking s)) eqn:E.
  - now apply existsb_archive_eqb.
  - rewrite map_app. apply in_or_app. right. now left.
Qed.

Lemma start_loop_tracks a l : forall s,
  In a l ->
  In (pk a) (map pk (tracking (fold_left (fun s a => start_tracking a s) l s))).
Proof.
  induction l as [|b l IH]; intros s []; simpl.
  - subst b. pose proof (start_tracking_tracks a s) as H.
    apply in_map_iff in H as (t & Et & Ht). rewrite <- Et.
    now apply in_map, start_loop_keeps.
  - now apply IH.
Qed.

Lemma in_dict_get {V} u k (v : V) (m : list (User * V)) :
  In (k, v) m -> user_pk k = user_pk u -> dict_get user_eqb u m <> None.
Proof.
  intros H E G. rewrite dict_get_item in G.
  pose proof (dict_mem_item u m) as M.
  assert (T : dict_mem user_eqb u m = true).
  { apply dict_mem_owners. rewrite <- E.
    change (user_pk k) with ((fun kv : User * V => user_pk (fst kv)) (k, v)).
    now apply in_map. }
  destruct (dict_item u m); [discriminate|congruence].
Qed.

Lemma in_to_restart s k :
  In k (to_restart s) ->
  exists u st c, In (u, st) (streams s) /\ running st = false /\
                 In c (channels st) /\ pk c = k.
Proof.
  unfold to_restart. intros H. apply in_flat_map in H as ([u st] & Hs & H).
  simpl in H. destruct (running st) eqn:R; [destruct H|].
  apply in_map_iff in H as (c & Ec & Hc). now exists u, st, c.
Qed.

Lemma in_owned_by u l a :
  In a (owned_by u l) -> In a l /\ user_pk (user a) = user_pk u.
Proof.
  intros H. apply filter_In in H as [H E]. split; [assumption|].
  now apply Z.eqb_eq in E.
Qed.

Section Stuck.
Variable STATUS_DISABLED : Z.
Variable connect : User -> list Archive -> Opening.

Lemma tracked_not_to_start now s k :
  In k (map pk (tracking s)) -> ~ In k (to_restart s) ->
  ~ In k (map pk (fst (_get_archives_to_start STATUS_DISABLED now s))).
Proof.
  intros T R H. apply in_map_iff in H as (b & Eb & Hb). subst k.
  apply in_to_start in Hb as [_ Hb].
  destruct (to_restart s) as [|i ids] eqn:E.
  - now apply in_due in Hb as (_ & _ & U & _).
  - destruct Hb as [_ [Hb|Hb]]; [|now apply R].
    apply in_map_iff in Hb as (y & Ey & Hy). rewrite <- Ey in T.
    now apply in_due in Hy as (_ & _ & U & _).
Qed.

Lemma row_after_tick now s a :
  In a (objects s) ->
  exists r, In r (objects (tick STATUS_DISABLED connect now s)) /\
            unflagged r = unflagged a.
Proof.
  intros H. apply (in_map unflagged) in H.
  rewrite <- (unflagged_tick STATUS_DISABLED connect now s) in H.
  apply in_map_iff in H as (r & Er & Hr). now exists r.
Qed.

Lemma row_before_tick now s r :
  In r (objects (tick STATUS_DISABLED connect now s)) ->
  exists a, In a (objects s) /\ unflagged a = unflagged r.
Proof.
  intros H. apply (in_map unflagged) in H.
  rewrite (unflagged_tick STATUS_DISABLED connect now s) in H.
  apply in_map_iff in H as (a & Ea & Ha). now exists a.
Qed.

Lemma unflagged_fields a b :
  unflagged a = unflagged b ->
  pk a = pk b /\ user a = user b /\ started a = started b /\
  stopped a = stopped b.
Proof. intros E. now inversion E. Qed.

Lemma tick_tracks_to_start now s a :
  In a (fst (_get_archives_to_start STATUS_DISABLED now s)) ->
  let s' := tick STATUS_DISABLED connect now s in
  In (pk a) (map pk (tracking s')) /\
  forall u, user_pk u = user_pk (user a) ->
    dict_get user_eqb u (streams s')
    = match owned_by u (tracking s') with
      | [] => None
      | a0 :: _ => registered connect (user a0, owned_by u (tracking s'))
      end.
Proof.
  intros H. unfold tick.
  destruct (_get_archives_to_start STATUS_DISABLED now s) as [to_start s0].
  simpl in H.
  set (to_stop := filter (fun a => stopped__lte now a && is_running_is true a)
                         (objects s0)).
  destruct (to_start ++ to_stop) as [|x0 l0] eqn:E.
  { apply app_eq_nil in E as [E _]. subst to_start. destruct H. }
  clear E. simpl.
  destruct (adjust_connections_fields connect to_start to_stop s0)
    as (_ & At & _).
  split.
  - rewrite At. now apply start_loop_tracks.
  - intros u Eu.
    pose proof (registry_after_adjust connect to_start to_stop s0 u) as G.
    cbv zeta in G. rewrite G.
    assert (X : existsb (user_eqb u) (map user (to_start ++ to_stop)) = true).
    { apply existsb_exists. exists (user a). split.
      - apply in_map, in_or_app. now left.
      - now apply Z.eqb_eq. }
    now rewrite X.
Qed.

(** X7: from a consistent state, when a tick starts an archive and the
    upstream refuses every connection for the archive's owner
    (authenticating or building the stream raises), the tick leaves the
    archive tracked and flagged as running with no stream registered for
    its owner, and in that state [_get_archives_to_start] does not return
    the archive, whatever the time.  This says nothing of later passes. *)
Theorem refused_archive_is_left_without_stream :
  forall now s a,
    consistent s ->
    In a (fst (_get_archives_to_start STATUS_DISABLED now s)) ->
    (forall k l, user_pk k = user_pk (user a) -> connect k l = Refused) ->
    let s' := tick STATUS_DISABLED connect now s in
    dict_get user_eqb (user a) (streams s') = None /\
    In (pk a) (map pk (tracking s')) /\
    (forall r, In r (objects s') -> pk r = pk a -> is_running r = true) /\
    forall now',
      ~ In (pk a)
          (map pk (fst (_get_archives_to_start STATUS_DISABLED now' s'))).
Proof.
  intros now s a C Ha Rf s'.
  destruct (tick_tracks_to_start now s a Ha) as [T G]. fold s' in T, G.
  pose proof (consistent_tick STATUS_DISABLED connect now s C) as C'.
  fold s' in C'.
  assert (N : dict_get user_eqb (user a) (streams s') = None).
  { rewrite (G (user a) eq_refl).
    destruct (owned_by (user a) (tracking s')) as [|a0 r] eqn:O;
      [reflexivity|].
    assert (H0 : In a0 (owned_by (user a) (tracking s')))
      by (rewrite O; now left).
    apply in_owned_by in H0 as [_ E0].
    unfold registered. simpl. now rewrite (Rf (user a0) (a0 :: r) E0). }
  assert (F : forall t r, In t (tracking s') -> pk t = pk a ->
                          In r (objects s') -> pk r = pk a ->
                          is_running r = true /\
                          user_pk (user r) = user_pk (user t)).
  { intros t r Ht Et Hr Er.
    apply (tracked_running s' C' t r Ht Hr). congruence. }
  apply in_map_iff in T as (t & Et & Ht).
  repeat split.
  - exact N.
  - rewrite <- Et. now apply in_map.
  - intros r Hr Er. now apply (F t r Ht Et Hr Er).
  - intros now'. apply tracked_not_to_start.
    + rewrite <- Et. now apply in_map.
    + intros R. apply in_to_restart in R as (u & st & c & Hs & _ & Hc & Ec).
      destruct (channels_tracked s' C' u st c Hs Hc) as (t' & Ht' & Et' & Eu).
      assert (t' = t).
      { apply (nodup_pk_eq (tracking s')); [apply C'|assumption..|congruence]. }
      subst t'.
      pose proof (to_start_incl STATUS_DISABLED now s a Ha) as Ho.
      destruct (row_after_tick now s a Ho) as (r & Hr & Er).
      apply unflagged_fields in Er as (Epk & Eus & _).
      destruct (F t r Ht Et Hr Epk) as [_ Ur].
      apply (in_dict_get (user a) u st (streams s') Hs); [|exact N].
      congruence.
Qed.

End Stuck.

(** X7 on a sample: the pending archive, with an upstream that refuses. *)
Lemma refused_archive_is_left_without_stream_sample :
  consistent (init [pending]) /\
  In pending (fst (_get_archives_to_start DISABLED 10 (init [pending]))) /\
  (forall k l, user_pk k = user_pk (user pending) -> refusing k l = Refused) /\
  let s' := tick DISABLED refusing 10 (init [pending]) in
  dict_get user_eqb alice (streams s') = None /\
  In 3 (map pk (tracking s')) /\
  (forall r, In r (objects s') -> pk r = 3 -> is_running r = true) /\
  forall now',
    ~ In 3 (map pk (fst (_get_archives_to_start DISABLED now' s'))).
Proof.
  assert (C : consistent (init [pending])).
  { apply consistent_init. repeat constructor. intros []. }
  assert (H : In pending
                (fst (_get_archives_to_start DISABLED 10 (init [pending]))))
    by (now left).
  assert (R : forall k l, user_pk k = user_pk (user pending) ->
                          refusing k l = Refused) by reflexivity.
  split; [exact C|split; [exact H|split; [exact R|]]].
  exact (refused_archive_is_left_without_stream DISABLED refusing 10
           (init [pending]) pending C H R).
Defined.

(** ** Archives whose window has closed *)

Lemma running_start_tracking k b s :
  pk b = k \/
  (forall r, In r (objects s) -> pk r = k -> is_running r = true) ->
  forall r, In r (objects (start_tracking b s)) -> pk r = k ->
            is_running r = true.
Proof.
  intros H r Hr E. rewrite objects_start_tracking in Hr.
  apply in_objects_save in Hr as (r0 & H0 & E0 & _ & [[N F]|[_ F]]).
  - rewrite F. destruct H as [H|H]; [simpl in N; congruence|].
    apply H; [assumption|congruence].
  - exact F.
Qed.

Lemma running_start_loop k l : forall s,
  In k (map pk l) \/
  (forall r, In r (objects s) -> pk r = k -> is_running r = true) ->
  forall r,
    In r (objects (fold_left (fun s a => start_tracking a s) l s)) ->
    pk r = k -> is_running r = true.
Proof.
  induction l as [|b l IH]; intros s H; simpl.
  - destruct H as [[]|H]. exact H.
  - apply IH. destruct H as [[E|H]|H].
    + right. apply running_start_tracking. now left.
    + now left.
    + right. apply running_start_tracking. now right.
Qed.

Section Closed.
Variable STATUS_DISABLED : Z.
Variable connect : User -> list Archive -> Opening.

Lemma tick_flags_to_start now s a :
  In a (fst (_get_archives_to_start STATUS_DISABLED now s)) ->
  forall r, In r (objects (tick STATUS_DISABLED connect now s)) ->
            pk r = pk a -> is_running r = true.
Proof.
  intros T. unfold tick.
  destruct (_get_archives_to_start STATUS_DISABLED now s) as [to_start s0].
  simpl in T.
  set (to_stop := filter (fun a => stopped__lte now a && is_running_is true a)
                         (objects s0)).
  destruct (to_start ++ to_stop) as [|x0 l0] eqn:E.
  { apply app_eq_nil in E as [E _]. subst to_start. destruct T. }
  clear E. simpl.
  destruct (adjust_connections_fields connect to_start to_stop s0)
    as (Ao & _).
  rewrite Ao. apply running_start_loop. left. now apply in_map.
Qed.

Lemma restarted_is_kept now s a :
  In a (objects s) -> In (pk a) (to_restart s) ->
  status (user a) <> STATUS_DISABLED ->
  let s' := tick STATUS_DISABLED connect now s in
  In (pk a) (map pk (tracking s')) /\
  (exists r, In r (objects s') /\ pk r = pk a) /\
  (forall r, In r (objects s') -> pk r = pk a -> is_running r = true).
Proof.
  intros Ha Hr Hd s'.
  assert (T : In a (fst (_get_archives_to_start STATUS_DISABLED now s))).
  { apply in_to_start. split; [assumption|].
    destruct (to_restart s) as [|i ids]; [destruct Hr|]. auto. }
  split; [apply (tick_tracks_to_start STATUS_DISABLED connect now s a T)|].
  split; [|now apply tick_flags_to_start].
  destruct (row_after_tick STATUS_DISABLED connect now s a Ha) as (r & H & E).
  exists r. split; [assumption|]. now apply unflagged_fields in E.
Qed.

End Closed.

Lemma consistent_closing_on alive : consistent (closing_on alive).
Proof.
  constructor; simpl.
  - repeat constructor. intros [].
  - repeat constructor. intros [].
  - intros t a [<-|[]] [<-|[]] _. now split.
  - intros u st c [E|[]] Hc. injection E as <- <-.
    destruct Hc as [<-|[]]. exists closing. repeat split. now left.
Qed.

(** C4 (the code departs from the claim): an archive whose window has
    closed, but whose id restart detection gathered from a stream that
    reports not-running, is stopped and started again by the same call of
    [adjust_connections]: after the tick it is tracked and its row is
    flagged as running, whatever the upstream does.  [_handle_restarts]
    selects by key alone, where the two other selections of the tick
    compare [stopped] with the clock.  Concretely: the archive's window is
    [0, 5); started at 0 on an upstream whose [filter] raises, it is bound
    to a stream that is registered and not running.  The tick at 10 starts
    it again, under a new stream; on an upstream that keeps failing it is
    still tracked and flagged after the ticks at 10, 20 and 30.  Bound to
    a stream that runs, the same archive is let go of by the tick at 10. *)
Theorem stopped_archive_on_dead_stream_is_restarted :
  (forall STATUS_DISABLED connect now s a t,
      In a (objects s) -> stopped a = Some t -> t <= now ->
      In (pk a) (to_restart s) -> status (user a) <> STATUS_DISABLED ->
      let s' := tick STATUS_DISABLED connect now s in
      In (pk a) (map pk (tracking s')) /\
      (exists r, In r (objects s') /\ pk r = pk a) /\
      (forall r, In r (objects s') -> pk r = pk a -> is_running r = true)) /\
  (let s0 := tick DISABLED broken 0 (init [set_is_running false closing]) in
   stopped closing = Some 5 /\
   objects s0 = [closing] /\ tracking s0 = [closing] /\
   streams s0 = [(alice, mkStream false [closing])] /\
   (let s1 := tick DISABLED connected 10 s0 in
    objects s1 = [closing] /\ is_running closing = true /\
    tracking s1 = [closing] /\
    streams s1 = [(alice, mkStream true [closing])] /\
    ~ released (pk closing) s1) /\
   (let s3 := loop DISABLED broken [10; 20; 30] s0 in
    objects s3 = [closing] /\ tracking s3 = [closing] /\
    streams s3 = [(alice, mkStream false [closing])] /\
    ~ released (pk closing) s3) /\
   released (pk closing) (tick DISABLED connected 10 (closing_on true))).
Proof.
  split.
  { intros D connect now s a t Ha _ _ Hr Hd.
    now apply restarted_is_kept. }
  cbv zeta. split; [reflexivity|].
  split; [vm_compute; reflexivity|]. split; [vm_compute; reflexivity|].
  split; [vm_compute; reflexivity|]. split.
  { split; [vm_compute; reflexivity|]. split; [reflexivity|].
    split; [vm_compute; reflexivity|]. split; [vm_compute; reflexivity|].
    intros (_ & U & _). apply U. vm_compute. now left. }
  split.
  { split; [vm_compute; reflexivity|]. split; [vm_compute; reflexivity|].
    split; [vm_compute; reflexivity|].
    intros (_ & U & _). apply U. vm_compute. now left. }
  apply (tick_releases DISABLED connected 10 (closing_on true) closing 5
           (consistent_closing_on true)).
  - now left.
  - reflexivity.
  - lia.
  - intros [].
Qed.

(** ** A settled collector only sleeps *)

Lemma filter_nil {A} (f : A -> bool) l :
  (forall x, In x l -> f x = false) -> filter f l = [].
Proof.
  induction l as [|x l IH]; intros H; simpl; [reflexivity|].
  rewrite (H x) by now left. apply IH. intros y Hy. apply H. now right.
Qed.

Lemma nil_of_no_member {A} (l : list A) : (forall x, ~ In x l) -> l = [].
Proof.
  destruct l as [|x l]; [reflexivity|]. intros H. destruct (H x). now left.
Qed.

Lemma in_due_intro now s a :
  first_pass_completed s = false ->
  In a (objects s) -> started a <= now ->
  ~ In (pk a) (map pk (tracking s)) ->
  match stopped a with Some t => now < t | None => True end ->
  In a (due now s).
Proof.
  intros F Ha S U W. unfold due. rewrite F. apply filter_In. split.
  - apply filter_In. split.
    + apply filter_In. split; [assumption|]. now apply Z.leb_le.
    + destruct (pk__in (map pk (tracking s)) a) eqn:E; [|reflexivity].
      now apply pk__in_spec in E.
  - unfold stopped__gt, stopped__isnull.
    destruct (stopped a); [|reflexivity].
    rewrite orb_false_r. now apply Z.ltb_lt.
Qed.

Section Settled.
Variable STATUS_DISABLED : Z.
Variable connect : User -> list Archive -> Opening.

Lemma to_start_snd now s :
  first_pass_completed s = false -> to_restart s = [] ->
  snd (_get_archives_to_start STATUS_DISABLED now s) = s.
Proof.
  intros F R. unfold _get_archives_to_start, _handle_restarts.
  rewrite F, R. reflexivity.
Qed.

Lemma tick_keeps_tracked now s t :
  NoDup (map pk (objects s)) ->
  In t (tracking s) ->
  (forall b u, In b (objects s) -> pk b = pk t -> stopped b = Some u ->
               now < u) ->
  In t (tracking (tick STATUS_DISABLED connect now s)).
Proof.
  intros N Ht W. unfold tick.
  pose proof (to_start_state STATUS_DISABLED now s) as T.
  destruct (_get_archives_to_start STATUS_DISABLED now s) as [to_start s0].
  simpl in T. destruct T as (To & Tt & _).
  set (to_stop := filter (fun a => stopped__lte now a && is_running_is true a)
                         (objects s0)).
  destruct (to_start ++ to_stop) as [|x0 l0] eqn:E; simpl;
    [now rewrite Tt|].
  clear E.
  destruct (adjust_connections_fields connect to_start to_stop s0)
    as (_ & At & _ & A1t & _).
  rewrite At. apply start_loop_keeps, stop_loop_keeps; [now rewrite A1t, Tt|].
  intros b Hb Eb. unfold to_stop in Hb. apply filter_In in Hb as [Hb P].
  rewrite To in Hb. apply andb_prop in P as [P _].
  unfold stopped__lte in P. destruct (stopped b) as [u|] eqn:S;
    [|discriminate].
  apply Z.leb_le in P. specialize (W b u Hb Eb S). lia.
Qed.

(** X8: once a tick has brought the connections in line and no stream is
    dead, the next tick does nothing but sleep [LOOP_TIME], as long as no
    archive's window opened or closed in between: it starts and stops
    nothing, touches no stream and writes nothing to the store. *)
Theorem settled_tick_only_sleeps :
  forall now now' s,
    consistent s ->
    first_pass_completed s = false ->
    to_restart s = [] ->
    to_restart (tick STATUS_DISABLED connect now s) = [] ->
    same_windows now now' (objects s) ->
    tick STATUS_DISABLED connect now' (tick STATUS_DISABLED connect now s)
    = emit (Sleep LOOP_TIME) (tick STATUS_DISABLED connect now s).
Proof.
  intros now now' s C F R R' W.
  set (s1 := tick STATUS_DISABLED connect now s) in *.
  pose proof (consistent_tick STATUS_DISABLED connect now s C) as C1.
  pose proof (first_pass_completed_tick STATUS_DISABLED connect now s F) as F1.
  fold s1 in C1, F1.
  assert (S1 : fst (_get_archives_to_start STATUS_DISABLED now' s1) = []).
  { apply nil_of_no_member. intros b Hb.
    apply in_to_start in Hb as [Db Hb]. rewrite R' in Hb.
    apply in_due in Hb as (Hb & Sb & Ub & Wb).
    destruct (row_before_tick STATUS_DISABLED connect now s b Hb)
      as (b0 & Hb0 & E).
    apply unflagged_fields in E as (Epk & Eus & Est & Esp).
    destruct (W b0 Hb0) as [W1 W2].
    assert (Wb0 : match stopped b0 with Some t => now < t | None => True end).
    { rewrite Esp. destruct (stopped b) as [t|]; [|exact I].
      specialize (W2 t Esp). lia. }
    assert (U0 : ~ In (pk b0) (map pk (tracking s))).
    { intros K. apply in_map_iff in K as (t & Et & Ht). apply Ub.
      rewrite <- Epk, <- Et. apply in_map.
      apply tick_keeps_tracked; [apply C|assumption|].
      intros x u Hx Ex Sx.
      assert (x = b0).
      { apply (nodup_pk_eq (objects s)); [apply C|assumption..|congruence]. }
      subst x. rewrite Sx in Wb0. exact Wb0. }
    assert (D0 : In b0 (due now s)).
    { apply in_due_intro; try assumption. apply W1. now rewrite Est. }
    assert (T0 : In b0 (fst (_get_archives_to_start STATUS_DISABLED now s))).
    { apply in_to_start. rewrite R. split; [congruence|assumption]. }
    apply Ub. rewrite <- Epk.
    apply (tick_tracks_to_start STATUS_DISABLED connect now s b0 T0). }
  assert (S2 : filter (fun a => stopped__lte now' a && is_running_is true a)
                      (objects s1) = []).
  { apply filter_nil. intros b Hb.
    destruct (stopped__lte now' b) eqn:P; [|reflexivity]. simpl.
    unfold stopped__lte in P. destruct (stopped b) as [t|] eqn:Sp;
      [|discriminate].
    apply Z.leb_le in P.
    destruct (row_before_tick STATUS_DISABLED connect now s b Hb)
      as (b0 & Hb0 & E).
    apply unflagged_fields in E as (Epk & _ & _ & Esp).
    rewrite Sp in Esp. destruct (W b0 Hb0) as [_ W2].
    assert (Le : t <= now) by now apply (W2 t Esp).
    assert (Rb : ~ In (pk b0) (to_restart s)) by (rewrite R; intros []).
    destruct (tick_releases STATUS_DISABLED connect now s b0 t C Hb0 Esp Le Rb)
      as (Nr & _).
    unfold is_running_is. now rewrite (Nr b Hb (eq_sym Epk)). }
  pose proof (to_start_snd now' s1 F1 R') as S3.
  unfold tick at 1.
  destruct (_get_archives_to_start STATUS_DISABLED now' s1) as [ts s1'].
  simpl in S1, S3. subst ts s1'. now rewrite S2.
Qed.

End Settled.

(** X8 on a sample: two passes, at 10 and at 20, over two open windows. *)
Lemma settled_tick_only_sleeps_sample :
  consistent (init [early; late]) /\
  same_windows 10 20 [early; late] /\
  tick DISABLED connected 20 (tick DISABLED connected 10 (init [early; late]))
  = emit (Sleep LOOP_TIME) (tick DISABLED connected 10 (init [early; late])).
Proof.
  assert (C : consistent (init [early; late])).
  { apply consistent_init. repeat constructor; simpl; intuition discriminate. }
  assert (W : same_windows 10 20 [early; late]).
  { intros a [<-|[<-|[]]]; simpl; (split; [lia|]); intros t E;
      injection E as <-; lia. }
  split; [exact C|split; [exact W|]].
  exact (settled_tick_only_sleeps DISABLED connected 10 20 (init [early; late])
           C eq_refl eq_refl eq_refl W).
Defined.

(** ** The books of a running collector *)

Section Books.
Variable STATUS_DISABLED : Z.
Variable connect : User -> list Archive -> Opening.

(** X9: from start-up on, over a store keyed by [pk], after any number of
    passes: no archive is tracked twice, every tracked archive is flagged
    as running in the store, and every channel of a registered stream
    carries a tracked archive of the owner the stream is registered
    under. *)
Theorem loop_keeps_tracking_consistent :
  forall store clock,
    NoDup (map pk store) ->
    let s := loop STATUS_DISABLED connect clock (init store) in
    NoDup (map pk (tracking s)) /\
    (forall t r, In t (tracking s) -> In r (objects s) -> pk r = pk t ->
                 is_running r = true) /\
    (forall u st c, In (u, st) (streams s) -> In c (channels st) ->
       exists t, In t (tracking s) /\ pk t = pk c /\
                 user_pk (user t) = user_pk u).
Proof.
  intros store clock N s.
  assert (C : consistent s).
  { unfold s. now apply consistent_loop, consistent_init. }
  destruct C as [_ C2 C3 C4]. repeat split; [assumption| |assumption].
  intros t r Ht Hr E. now apply (C3 t r Ht Hr E).
Qed.

End Books.

(** X9 on a sample: three passes; the second window closes before the
    third. *)
Lemma loop_keeps_tracking_consistent_sample :
  NoDup (map pk [early; late]) /\
  NoDup (map pk (tracking (loop DISABLED connected [0; 10; 60]
                             (init [early; late])))).
Proof.
  assert (N : NoDup (map pk [early; late])).
  { repeat constructor; simpl; intuition discriminate. }
  split; [exact N|].
  exact (proj1 (loop_keeps_tracking_consistent DISABLED connected
                  [early; late] [0; 10; 60] N)).
Defined.

End CollectorProofs.

(** * Properties of the consumer *)

Module ConsumersProofs.
Import Consumers.

Section WorkerSpec.
Context {Aggregate Snapshot : Type}.
Variable collect : Parser -> Aggregate -> Json -> Aggregate * option Exception.
Variable generate : Parser -> Aggregate -> Aggregate * (Exception + Snapshot).
Variable total_of : Aggregate -> Z.
Variable loads : string -> option Json.
Variable ack : Z -> option Exception.
Variable calculate_size : Archive Snapshot -> Z.
Implicit Types c : ArchiveConsumer Aggregate Snapshot.

Lemma call_collect_accepted p members c :
  accepting collect ->
  call_collect collect p (JObject members) c
  = Return tt (emit (Collect p (JObject members))
                 (set_parser p (fst (collect p (parser c p) (JObject members)))
                             c)).
Proof.
  intros H. unfold call_collect. specialize (H p (parser c p) members).
  destruct (collect p (parser c p) (JObject members)) as [a r].
  simpl in *. now subst r.
Qed.

Ltac step_collect H :=
  repeat (rewrite (call_collect_accepted _ _ _ H); cbn beta iota).

Lemma parse_line_record line members c :
  accepting collect -> loads line = Some (JObject members) ->
  exists c',
    _parse_line collect loads line c
    = Return (members_get "created_at" members) c' /\
    archive c' = archive c /\ should_stop c' = should_stop c /\
    log c' = log c ++ feed (allow_search (archive c)) (JObject members) /\
    parser c' Statistics
    = fst (collect Statistics (parser c Statistics) (JObject members)).
Proof.
  intros H E. unfold _parse_line. rewrite E. unfold bind, gets, ret.
  step_collect H. cbn [archive set_parser emit].
  destruct (allow_search (archive c)); step_collect H;
    (eexists; split; [reflexivity|]); cbn; rewrite <- ?app_assoc; auto.
Qed.

Lemma parse_line_malformed line c :
  malformed loads line ->
  _parse_line collect loads line c = Return (JString EmptyString) c.
Proof. intros E. unfold _parse_line. now rewrite E. Qed.

Lemma replay_total lines : forall c,
  accepting collect -> should_stop c = false ->
  (forall line, In line lines ->
                  well_formed loads line \/ malformed loads line) ->
  exists c',
    replay collect loads lines c = Return false c' /\
    archive c' = archive c /\ should_stop c' = false /\
    log c' = log c ++ replayed loads (allow_search (archive c)) lines /\
    (counting collect total_of ->
     total_of (parser c' Statistics)
     = total_of (parser c Statistics)
       + Z.of_nat (List.length (filter (is_record loads) lines))).
Proof.
  induction lines as [|line lines IH]; intros c H S W.
  - exists c. simpl. rewrite app_nil_r. repeat split; auto. intros _. lia.
  - simpl. unfold bind at 1. unfold gets at 1. rewrite S.
    unfold bind at 1.
    destruct (W line (or_introl eq_refl)) as [[members E]|E].
    + destruct (parse_line_record line members c H E)
        as (c1 & P & A1 & S1 & L1 & T1).
      rewrite P. rewrite S in S1.
      destruct (IH c1 H S1 (fun l Hl => W l (or_intror Hl)))
        as (c' & R & A' & S' & L' & T').
      exists c'. rewrite R, A', S', L', L1, A1. unfold is_record at 1.
      rewrite E. simpl. rewrite <- app_assoc. repeat split; auto.
      intros C. rewrite (T' C), T1, C. lia.
    + rewrite (parse_line_malformed line c E).
      destruct (IH c H S (fun l Hl => W l (or_intror Hl)))
        as (c' & R & A' & S' & L' & T').
      exists c'. rewrite R. unfold is_record at 1.
      red in E. rewrite E. simpl. repeat split; auto.
Qed.

Lemma call_generate_returned p c x :
  snd (generate p (parser c p)) = inr x ->
  call_generate generate p c
  = Return x (emit (Generate p)
                (set_parser p (fst (generate p (parser c p))) c)).
Proof.
  intros H. unfold call_generate.
  destruct (generate p (parser c p)) as [a r]. simpl in *. now subst r.
Qed.

Ltac step_generate G :=
  repeat match goal with
    | |- context [call_generate generate ?p ?c] =>
        let x := fresh "x" in
        let Hx := fresh "Hx" in
        destruct (G p (parser c p)) as [x Hx];
        rewrite (call_generate_returned p c x Hx); cbn beta iota; clear Hx
    end.

Lemma write_distillations_total now c :
  generating generate ->
  exists c',
    _write_distillations generate total_of calculate_size now c
    = Return tt c' /\
    should_stop c' = should_stop c /\
    in_step total_of c' /\
    (steady generate total_of ->
     total_of (parser c' Statistics) = total_of (parser c Statistics)).
Proof.
  intros G. unfold _write_distillations, on_archive, bind, modify, gets.
  step_generate G.
  eexists. split; [reflexivity|]. unfold in_step. cbn.
  repeat split. intros S. apply S.
Qed.

Lemma process_message_total now later members message c :
  accepting collect -> generating generate -> acking ack ->
  exists c',
    _process_message collect generate total_of ack calculate_size
                     now later (JObject members) message c
    = Return tt c' /\
    should_stop c' = should_stop c /\
    (counting collect total_of -> steady generate total_of ->
     total_of (parser c' Statistics) = total_of (parser c Statistics) + 1 /\
     (in_step total_of c -> in_step total_of c')).
Proof.
  intros H G K. unfold _process_message.
  unfold bind at 1. unfold on_archive at 1, modify at 1.
  unfold bind, gets, ret. step_collect H.
  cbn [archive set_parser emit set_archive set_total allow_search].
  assert (A : forall c0 : ArchiveConsumer Aggregate Snapshot,
             call_ack ack message c0 = Return tt (emit (Ack message) c0))
    by (intros c0; unfold call_ack; now rewrite K).
  destruct (allow_search (archive c)); step_collect H; rewrite A;
    cbn beta iota; cbn [last_distilled emit set_parser set_archive];
    (destruct (DISTILLATION_WINDOW <? now - last_distilled c);
     [ match goal with
       | |- context [_write_distillations _ _ _ later ?c0] =>
           destruct (write_distillations_total later c0 G)
             as (c' & E & S' & I' & T')
       end;
       exists c'; rewrite E; split; [reflexivity|]; split; [exact S'|];
       intros C S; rewrite (T' S); cbn; rewrite C; split; [reflexivity|];
       intros _; exact I'
     | eexists; split; [reflexivity|]; split; [reflexivity|];
       intros C S; unfold in_step; cbn; rewrite C; split; [reflexivity|];
       intros I; rewrite I; reflexivity ]).
Qed.

Lemma process_all_total deliveries : forall c,
  accepting collect -> generating generate -> acking ack ->
  (forall d, In d deliveries ->
             exists members, snd (fst d) = JObject members) ->
  exists c',
    process_all collect generate total_of ack calculate_size deliveries c
    = Return tt c' /\
    should_stop c' = should_stop c /\
    (counting collect total_of -> steady generate total_of ->
     total_of (parser c' Statistics)
     = total_of (parser c Statistics) + Z.of_nat (List.length deliveries) /\
     (in_step total_of c -> in_step total_of c')).
Proof.
  induction deliveries as [|[[[now later] tweet] message] ds IH];
    intros c H G K W.
  - exists c. simpl. repeat split; auto. lia.
  - destruct (W _ (or_introl eq_refl)) as [members E]. simpl in E. subst tweet.
    destruct (process_message_total now later members message c H G K)
      as (c1 & P & S1 & T1).
    destruct (IH c1 H G K (fun d Hd => W d (or_intror Hd)))
      as (c' & R & S' & T').
    exists c'. cbn [process_all]. unfold bind. rewrite P, R.
    split; [reflexivity|]. split; [congruence|].
    intros C S. destruct (T1 C S) as [T1a T1b].
    destruct (T' C S) as [Ta Tb]. split; [|auto].
    rewrite Ta, T1a. cbn [List.length]. lia.
Qed.

(** ** Cold start *)

Lemma compile_aggregates_total lines c :
  accepting collect -> should_stop c = false ->
  (forall line, In line lines ->
                  well_formed loads line \/ malformed loads line) ->
  exists c',
    _compile_aggregates collect total_of loads lines c = Return tt c' /\
    log c' = log c ++ replayed loads (allow_search (archive c)) lines /\
    in_step total_of c' /\
    (counting collect total_of ->
     total_of (parser c' Statistics)
     = total_of (parser c Statistics)
       + Z.of_nat (List.length (filter (is_record loads) lines))).
Proof.
  intros H S W. unfold _compile_aggregates.
  unfold bind at 1. unfold on_archive at 1, modify at 1.
  destruct (replay_total lines (set_archive (set_total 0 (archive c)) c) H S W)
    as (c1 & R & A1 & S1 & L1 & T1).
  unfold bind at 1. rewrite R. unfold bind, gets, on_archive, modify.
  eexists. split; [reflexivity|]. repeat split.
  - exact L1.
  - intros C. exact (T1 C).
Qed.




(** ** Messages whose processing raises *)

Ltac run_externals :=
  repeat (cbn beta iota;
          cbn [parser archive allow_search last_distilled set_parser emit
               set_archive set_total set_last_distilled Parser_eqb];
          match goal with
          | |- context [collect ?p ?a ?t] =>
              destruct (collect p a t) as [? [?|]]
          | |- context [ack ?m] => destruct (ack m)
          | |- context [generate ?p ?a] =>
              destruct (generate p a) as [? [?|?]]
          | |- context [allow_search (archive ?c)] =>
              destruct (allow_search (archive c))
          | |- context [DISTILLATION_WINDOW <? ?x] =>
              destruct (DISTILLATION_WINDOW <? x)
          end).

Lemma process_message_raises now later tweet message c e c' :
  _process_message collect generate total_of ack calculate_size
                   now later tweet message c = Raise e c' ->
  exists evs, log c' = log c ++ evs /\
              (In (Ack message) evs <-> In (Generate Raw) evs).
Proof.
  unfold _process_message, _write_distillations, on_archive, bind, modify,
    gets, ret, call_collect, call_ack, call_generate.
  run_externals; cbn; intros E; try discriminate E;
    injection E as <- <-; cbn; rewrite <- ?app_assoc;
    (eexists; split; [reflexivity|]); cbn;
    (split; intros H; repeat (destruct H as [H|H]; try discriminate H);
     try contradiction; auto 20).
Qed.

Lemma process_message_collect_raises now later tweet message c p e :
  (p = Search -> allow_search (archive c) = true) ->
  snd (collect p (parser c p) tweet) = Some e ->
  exists e' c' evs,
    _process_message collect generate total_of ack calculate_size
                     now later tweet message c = Raise e' c' /\
    total (archive c') = total (archive c) + 1 /\
    log c' = log c ++ evs /\ ~ In (Ack message) evs.
Proof.
  intros S H.
  unfold _process_message, _write_distillations, on_archive, bind, modify,
    gets, ret, call_collect, call_ack, call_generate.
  destruct p;
    repeat (cbn beta iota;
            cbn [parser archive allow_search set_parser emit set_archive
                 set_total Parser_eqb];
            match goal with
            | H : snd (collect ?p ?a ?t) = Some _
              |- context [collect ?p ?a ?t] =>
                let E := fresh "E" in
                destruct (collect p a t) as [? [?|]] eqn:E; cbn in H;
                [clear H|discriminate H]
            | |- context [collect ?p ?a ?t] =>
                destruct (collect p a t) as [? [?|]]
            | |- context [allow_search (archive ?c)] =>
                let A := fresh "A" in
                destruct (allow_search (archive c)) eqn:A;
                try rewrite A in S
            end);
    try (specialize (S eq_refl); discriminate S);
    (do 3 eexists; split; [reflexivity|]; cbn; rewrite <- ?app_assoc;
     split; [reflexivity|]; split; [reflexivity|]; cbn;
     intros K; repeat (destruct K as [K|K]; try discriminate K);
     contradiction).
Qed.

(** ** The claims *)

(** C6: replaying a log of well-formed records and processing the same
    records as live messages, from the same state, end with the same
    statistics count, and with the same archive [total] when [total]
    agreed with the statistics count at the start. *)
Theorem replay_matches_live_total :
  forall (records : list (string * Delivery)) c,
    accepting collect -> counting collect total_of ->
    generating generate -> steady generate total_of -> acking ack ->
    should_stop c = false ->
    (forall r, In r records ->
       exists members, loads (fst r) = Some (JObject members) /\
                       snd (fst (snd r)) = JObject members) ->
    exists c1 c2,
      _compile_aggregates collect total_of loads (map fst records) c
      = Return tt c1 /\
      process_all collect generate total_of ack calculate_size
                  (map snd records) c = Return tt c2 /\
      total_of (parser c1 Statistics) = total_of (parser c2 Statistics) /\
      (in_step total_of c -> total (archive c1) = total (archive c2)).
Proof.
  intros records c H C G S K St W.
  assert (W1 : forall line, In line (map fst records) ->
                            well_formed loads line \/ malformed loads line).
  { intros line Hl. apply in_map_iff in Hl as (r & <- & Hr).
    destruct (W r Hr) as (members & E & _). left. now exists members. }
  assert (W2 : forall d, In d (map snd records) ->
                         exists members, snd (fst d) = JObject members).
  { intros d Hd. apply in_map_iff in Hd as (r & <- & Hr).
    destruct (W r Hr) as (members & _ & E). now exists members. }
  assert (N : List.length (filter (is_record loads) (map fst records))
              = List.length (map snd records)).
  { clear W1 W2. induction records as [|r records IH]; [reflexivity|].
    simpl. destruct (W r (or_introl eq_refl)) as (members & E & _).
    unfold is_record at 1. rewrite E. simpl. f_equal. apply IH.
    intros r' Hr'. apply W. now right. }
  destruct (compile_aggregates_total _ c H St W1) as (c1 & E1 & _ & I1 & T1).
  destruct (process_all_total _ c H G K W2) as (c2 & E2 & _ & T2).
  destruct (T2 C S) as [T2a T2b].
  exists c1, c2. split; [assumption|]. split; [assumption|].
  assert (T : total_of (parser c1 Statistics) = total_of (parser c2 Statistics))
    by (rewrite (T1 C), T2a, N; reflexivity).
  split; [assumption|]. intros I. rewrite I1, (T2b I). exact T.
Qed.

(** On a log whose lines either decode to an object or make [json.loads]
    raise, replay returns; a line that does not decode adds nothing to the
    calls made; and with a statistics parser that starts at 0, [total] ends
    as the number of lines that decode. *)
Lemma replay_skips_undecodable_lines :
  forall lines c,
    accepting collect -> counting collect total_of ->
    should_stop c = false -> total_of (parser c Statistics) = 0 ->
    (forall line, In line lines ->
                  well_formed loads line \/ malformed loads line) ->
    exists c',
      _compile_aggregates collect total_of loads lines c = Return tt c' /\
      total (archive c')
      = Z.of_nat (List.length (filter (is_record loads) lines)) /\
      log c' = log c ++ replayed loads (allow_search (archive c)) lines /\
      forall before line after,
        lines = before ++ line :: after -> malformed loads line ->
        replayed loads (allow_search (archive c)) lines
        = replayed loads (allow_search (archive c)) (before ++ after).
Proof.
  intros lines c H C S Z0 W.
  destruct (compile_aggregates_total lines c H S W) as (c' & E & L & I & T).
  exists c'. split; [assumption|]. split; [|split; [assumption|]].
  - rewrite I, (T C), Z0. reflexivity.
  - intros before line after -> M. unfold replayed.
    rewrite !flat_map_app. simpl. red in M. now rewrite M.
Qed.

(** C8, amended: when processing a message raises, the callback returns;
    it has reported the exception, slept for one second and set
    [should_stop]; and the message has been acknowledged exactly when the
    exception came out of the distillation that follows the
    acknowledgement, so it is left unacknowledged when a [collect] or the
    acknowledgement itself raised. *)
Theorem callback_contains_failure :
  forall now later tweet message c e c',
    _process_message collect generate total_of ack calculate_size
                     now later tweet message c = Raise e c' ->
    exists c'' evs,
      callback collect generate total_of ack calculate_size
               now later tweet message c = Return tt c'' /\
      should_stop c'' = true /\
      log c'' = log c ++ evs ++ [Alert e; Sleep 1] /\
      (In (Ack message) evs <-> In (Generate Raw) evs).
Proof.
  intros now later tweet message c e c' E.
  destruct (process_message_raises _ _ _ _ _ _ _ E) as (evs & L & A).
  unfold callback. rewrite E. eexists. exists evs.
  split; [reflexivity|]. split; [reflexivity|]. split; [|exact A].
  simpl. rewrite L, <- !app_assoc. reflexivity.
Qed.

(** C9: when the [collect] of a parser that is fed raises on the record,
    [_process_message] raises with [total] already one higher and no
    acknowledgement made; the callback keeps that [total] and asks the
    worker to stop. *)
Theorem total_counts_the_failed_record :
  forall now later tweet message c p e,
    (p = Search -> allow_search (archive c) = true) ->
    snd (collect p (parser c p) tweet) = Some e ->
    exists e' c' evs c'',
      _process_message collect generate total_of ack calculate_size
                       now later tweet message c = Raise e' c' /\
      total (archive c') = total (archive c) + 1 /\
      log c' = log c ++ evs /\ ~ In (Ack message) evs /\
      callback collect generate total_of ack calculate_size
               now later tweet message c = Return tt c'' /\
      total (archive c'') = total (archive c) + 1 /\
      should_stop c'' = true /\
      log c'' = log c ++ evs ++ [Alert e'; Sleep 1].
Proof.
  intros now later tweet message c p e S H.
  destruct (process_message_collect_raises now later tweet message c p e S H)
    as (e' & c' & evs & E & T & L & A).
  exists e', c', evs. unfold callback. rewrite E. eexists.
  repeat split; try assumption.
  simpl. rewrite L, <- !app_assoc. reflexivity.
Qed.

(** ** Distillations *)

Ltac give_events :=
  first [ exists []; split; [now rewrite app_nil_r|]
        | eexists; split; [rewrite <- ?app_assoc; reflexivity|] ].

Ltac no_such_event :=
  let K := fresh "K" in
  intros K; repeat (destruct K as [K|K]; try discriminate K); contradiction.

(** X10: a distillation records its time before it generates anything, so
    [last_distilled] is the new time whether it returns or raises.  When it
    returns, the five [generate] calls happened in the order raw, map,
    cloud, statistics, images, the archive was saved once, last of all, with
    the three time stamps set and [total] taken from the statistics parser.
    When it raises, nothing was saved. *)
Theorem write_distillations_saves_last :
  forall now c,
    let o := _write_distillations generate total_of calculate_size now c in
    last_distilled (final o) = now /\
    exists evs,
      log (final o) = log c ++ evs /\
      match raised o with
      | None =>
          evs = distillation /\
          total (archive (final o))
          = total_of (parser (final o) Statistics) /\
          cloud_generated (archive (final o)) = Some now /\
          statistics_generated (archive (final o)) = Some now /\
          images_generated (archive (final o)) = Some now
      | Some _ => ~ In SaveDistillation evs
      end.
Proof.
  intros now c o. unfold o. clear o.
  unfold _write_distillations, on_archive, bind, modify, gets, call_generate.
  run_externals; cbn; (split; [reflexivity|]); give_events; cbn;
    first [ no_such_event | repeat split ].
Qed.

(** X11: [on_consume_end] marks the worker as stopped only after the last
    distillation was saved; if that distillation raises, nothing is saved
    and [is_stopped] stays as it was. *)
Theorem consume_end_stops_only_after_saving :
  forall now c,
    let o := on_consume_end generate total_of calculate_size now c in
    match raised o with
    | None =>
        is_stopped (final o) = true /\
        exists evs, log (final o) = log c ++ evs ++ [SaveDistillation]
    | Some _ =>
        is_stopped (final o) = is_stopped c /\
        exists evs, log (final o) = log c ++ evs /\
                    ~ In SaveDistillation evs
    end.
Proof.
  intros now c o. unfold o. clear o.
  unfold on_consume_end, _write_distillations, on_archive, bind, modify, gets,
    call_generate.
  run_externals; cbn; (split; [reflexivity|]);
    first [ exists [Generate Raw; Generate Map; Generate Cloud;
                    Generate Statistics; Generate Images];
            cbn; rewrite <- ?app_assoc; reflexivity
          | give_events; cbn; no_such_event ].
Qed.

(** ** One delivered message *)

(** X12: the distillation window is strict.  A message processed no more than
    [DISTILLATION_WINDOW] = 300 seconds after the last distillation
    generates and saves nothing and leaves [last_distilled] alone; one
    processed later than that, if processing returns, ends with a saved
    distillation stamped with the later clock reading. *)
Theorem distillation_waits_for_the_window :
  forall now later tweet message c,
    let o := _process_message collect generate total_of ack calculate_size
                              now later tweet message c in
    DISTILLATION_WINDOW = 300 /\
    exists evs,
      log (final o) = log c ++ evs /\
      (now - last_distilled c <= DISTILLATION_WINDOW ->
       last_distilled (final o) = last_distilled c /\
       ~ In SaveDistillation evs /\ forall p, ~ In (Generate p) evs) /\
      (DISTILLATION_WINDOW < now - last_distilled c ->
       raised o = None ->
       last_distilled (final o) = later /\
       exists pre, evs = pre ++ distillation).
Proof.
  intros now later tweet message c o. unfold o. clear o.
  split; [reflexivity|].
  unfold _process_message, _write_distillations, on_archive, bind, modify,
    gets, ret, call_collect, call_ack, call_generate.
  repeat (cbn beta iota;
          cbn [parser archive allow_search last_distilled set_parser emit
               set_archive set_total set_last_distilled Parser_eqb];
          match goal with
          | |- context [collect ?p ?a ?t] =>
              destruct (collect p a t) as [? [?|]]
          | |- context [ack ?m] => destruct (ack m)
          | |- context [generate ?p ?a] =>
              destruct (generate p a) as [? [?|?]]
          | |- context [allow_search (archive ?c)] =>
              destruct (allow_search (archive c))
          | |- context [DISTILLATION_WINDOW <? ?x] =>
              let W := fresh "W" in
              destruct (DISTILLATION_WINDOW <? x) eqn:W;
              [apply Z.ltb_lt in W|apply Z.ltb_ge in W]
          end);
    cbn; give_events; cbn;
    (split;
     [ intros Le;
       first [ exfalso; unfold DISTILLATION_WINDOW in *; lia
             | split; [reflexivity|]; split; [no_such_event|];
               intros p; no_such_event ]
     | intros Lt R;
       first [ exfalso; unfold DISTILLATION_WINDOW in *; lia
             | discriminate R
             | split; [reflexivity|];
               first [ exists [Collect Raw tweet; Collect Cloud tweet;
                               Collect Images tweet; Collect Statistics tweet;
                               Collect Map tweet; Collect Search tweet;
                               Ack message]; reflexivity
                     | exists [Collect Raw tweet; Collect Cloud tweet;
                               Collect Images tweet; Collect Statistics tweet;
                               Collect Map tweet; Ack message]; reflexivity ]
             ] ]).
Qed.

(** X13: a message is acknowledged only after every parser has collected it:
    raw, cloud, images, statistics, map and, when the archive allows it,
    search, in this order.  Whatever follows the acknowledgement belongs
    to a distillation.  A run without acknowledgement is a run that
    raised. *)
Theorem ack_follows_every_collect :
  forall now later tweet message c,
    let o := _process_message collect generate total_of ack calculate_size
                              now later tweet message c in
    exists evs,
      log (final o) = log c ++ evs /\
      ((~ In (Ack message) evs /\ raised o <> None) \/
       exists post,
         evs = live_feed (allow_search (archive c)) tweet
               ++ Ack message :: post /\
         Forall is_distil post).
Proof.
  intros now later tweet message c o. unfold o. clear o.
  unfold _process_message, _write_distillations, on_archive, bind, modify,
    gets, ret, call_collect, call_ack, call_generate.
  destruct (allow_search (archive c)) eqn:A;
    run_externals; cbn; rewrite ?A; give_events; cbn;
    first [ left; split; [no_such_event|discriminate]
          | right; eexists; split; [reflexivity|]; repeat constructor ].
Qed.

(** ** Cold start, whatever the lines and the parsers do *)

Lemma parse_line_log line c :
  let o := _parse_line collect loads line c in
  archive (final o) = archive c /\
  should_stop (final o) = should_stop c /\
  exists evs, log (final o) = log c ++ evs /\ Forall is_collect evs.
Proof.
  intros o. unfold o. clear o. unfold _parse_line.
  destruct (loads line) as [[| | | | |members]|];
    unfold bind, gets, ret, raise, call_collect;
    run_externals; cbn; (split; [reflexivity|]); (split; [reflexivity|]);
    give_events; repeat constructor.
Qed.

Lemma replay_cons line lines c :
  replay collect loads (line :: lines) c
  = if should_stop c then Return true c
    else match _parse_line collect loads line c with
         | Return _ c1 => replay collect loads lines c1
         | Raise e c1 => Raise e c1
         end.
Proof.
  cbn [replay]. unfold bind, gets, ret. now destruct (should_stop c).
Qed.

Lemma replay_log lines : forall c,
  let o := replay collect loads lines c in
  archive (final o) = archive c /\
  (exists evs, log (final o) = log c ++ evs /\ Forall is_collect evs) /\
  match o with
  | Return b _ => b = match lines with [] => false | _ => should_stop c end
  | Raise _ _ => True
  end.
Proof.
  induction lines as [|line lines IH]; intros c; cbn zeta.
  - cbn. split; [reflexivity|]. split; [|reflexivity].
    exists []. now rewrite app_nil_r.
  - rewrite replay_cons.
    destruct (should_stop c) eqn:S.
    + cbn. split; [reflexivity|]. split; [|reflexivity].
      exists []. now rewrite app_nil_r.
    + destruct (parse_line_log line c) as (A1 & S1 & evs1 & L1 & F1).
      destruct (_parse_line collect loads line c) as [x c1|e c1]; cbn in *.
      * destruct (IH c1) as (A2 & (evs2 & L2 & F2) & B2).
        split; [congruence|]. split.
        -- exists (evs1 ++ evs2). rewrite L2, L1, <- app_assoc.
           split; [reflexivity|]. now apply Forall_app.
        -- destruct (replay collect loads lines c1) as [b c2|e c2];
             [|exact I].
           rewrite B2. destruct lines; congruence.
      * split; [assumption|]. split; [|exact I]. now exists evs1.
Qed.

Lemma compile_aggregates_eq lines c :
  _compile_aggregates collect total_of loads lines c
  = match replay collect loads lines
            (set_archive (set_total 0 (archive c)) c) with
    | Return true c1 => Return tt c1
    | Return false c1 =>
        Return tt (set_archive
                     (set_total (total_of (parser c1 Statistics)) (archive c1))
                     c1)
    | Raise e c1 => Raise e c1
    end.
Proof.
  unfold _compile_aggregates, bind, on_archive, modify, gets, ret.
  now destruct (replay collect loads lines _) as [[|] c1|e c1].
Qed.

Lemma compile_aggregates_log lines c :
  let o := _compile_aggregates collect total_of loads lines c in
  (exists evs, log (final o) = log c ++ evs /\ Forall is_collect evs) /\
  match raised o with
  | None =>
      total (archive (final o))
      = match lines with
        | [] => total_of (parser (final o) Statistics)
        | _ => if should_stop c then 0
               else total_of (parser (final o) Statistics)
        end
  | Some _ => total (archive (final o)) = 0
  end.
Proof.
  intros o. unfold o. clear o. rewrite compile_aggregates_eq.
  destruct (replay_log lines (set_archive (set_total 0 (archive c)) c))
    as (A & L & B).
  destruct (replay collect loads lines
              (set_archive (set_total 0 (archive c)) c)) as [b c1|e c1];
    cbn in A, L, B |- *.
  - destruct b; cbn.
    + split; [exact L|]. rewrite A. cbn.
      destruct lines; [discriminate|]. now rewrite <- B.
    + split; [exact L|]. destruct lines; [reflexivity|]. now rewrite <- B.
  - split; [exact L|]. now rewrite A.
Qed.

(** X14: [on_consume_ready] issues exactly one effect besides the [collect]
    calls of the replay, [basic_qos] with a prefetch count of 1, last of
    all, and only when the replay did not raise.  When the replay raises,
    the archive's [total] is left at 0; when a stop was requested before a
    non-empty replay, it is left at 0 as well; otherwise it is the
    statistics parser's count. *)
Theorem consume_ready_sets_prefetch_last :
  forall lines c,
    let o := on_consume_ready collect total_of loads lines c in
    exists evs,
      Forall is_collect evs /\
      log (final o)
      = log c ++ evs ++ match raised o with None => [Qos 1] | Some _ => [] end
      /\
      total (archive (final o))
      = match raised o, lines with
        | Some _, _ => 0
        | None, [] => total_of (parser (final o) Statistics)
        | None, _ :: _ => if should_stop c then 0
                          else total_of (parser (final o) Statistics)
        end.
Proof.
  intros lines c o. unfold o. clear o. unfold on_consume_ready.
  destruct (compile_aggregates_log lines c) as ((evs & L & F) & T).
  unfold bind, modify.
  destruct (_compile_aggregates collect total_of loads lines c) as [x c1|e c1];
    cbn in L, T |- *; exists evs; (split; [exact F|]).
  - rewrite L, <- app_assoc. split; [reflexivity|]. exact T.
  - rewrite L, app_nil_r. split; [reflexivity|]. exact T.
Qed.

Lemma replay_app l1 l2 : forall c,
  replay collect loads (l1 ++ l2) c
  = match replay collect loads l1 c with
    | Return false c1 => replay collect loads l2 c1
    | o => o
    end.
Proof.
  induction l1 as [|line l1 IH]; intros c; [reflexivity|].
  cbn [app]. rewrite !replay_cons.
  destruct (should_stop c); [reflexivity|].
  destruct (_parse_line collect loads line c) as [x c1|e c1];
    [apply IH|reflexivity].
Qed.

Lemma parse_line_not_a_record line c :
  not_a_record loads line ->
  _parse_line collect loads line c = Raise AttributeError c.
Proof.
  intros (tweet & E & N). unfold _parse_line. rewrite E.
  destruct tweet; try reflexivity. now destruct (N members).
Qed.

(** ** What cold start feeds *)






(** X15: a line that is valid JSON but not an object (a list, a string, a
    number, [null]) aborts cold start: after the well-formed and malformed
    lines before it were replayed as usual, [_compile_aggregates] raises
    [AttributeError]; the lines after it are never read and the archive's
    [total] is left at 0. *)
Theorem non_object_line_aborts_replay :
  forall before line after c,
    accepting collect -> should_stop c = false ->
    (forall l, In l before -> well_formed loads l \/ malformed loads l) ->
    not_a_record loads line ->
    exists c',
      _compile_aggregates collect total_of loads (before ++ line :: after) c
      = Raise AttributeError c' /\
      total (archive c') = 0 /\
      log c' = log c ++ replayed loads (allow_search (archive c)) before.
Proof.
  intros before line after c H S W N. unfold _compile_aggregates.
  unfold bind at 1. unfold on_archive at 1, modify at 1.
  destruct (replay_total before (set_archive (set_total 0 (archive c)) c) H S W)
    as (c1 & R & A1 & S1 & L1 & _).
  unfold bind at 1. rewrite replay_app, R, replay_cons, S1.
  rewrite (parse_line_not_a_record line c1 N).
  exists c1. split; [reflexivity|]. rewrite A1. split; [reflexivity|exact L1].
Qed.

(** X16: cold start does not contain a parser's failure.  If a parser fed
    during replay raises on the first line's record, whatever the
    exception, [ValueError] included, [on_consume_ready] raises; the
    archive's [total] is left at 0 and the prefetch count is not set. *)
Theorem cold_start_does_not_contain_parser_failure :
  forall line members after c p e,
    should_stop c = false ->
    loads line = Some (JObject members) ->
    p <> Raw ->
    (p = Search -> allow_search (archive c) = true) ->
    snd (collect p (parser c p) (JObject members)) = Some e ->
    exists e' c' evs,
      on_consume_ready collect total_of loads (line :: after) c = Raise e' c' /\
      total (archive c') = 0 /\
      log c' = log c ++ evs /\ Forall is_collect evs.
Proof.
  intros line members after c p e S E NR SA H.
  unfold on_consume_ready. unfold bind at 1.
  rewrite compile_aggregates_eq, replay_cons. cbn [should_stop set_archive].
  rewrite S. unfold _parse_line. rewrite E.
  unfold bind, gets, ret, call_collect.
  destruct p; try (now destruct NR);
    repeat (cbn beta iota;
            cbn [parser archive allow_search set_parser emit set_archive
                 set_total Parser_eqb];
            match goal with
            | H : snd (collect ?p ?a ?t) = Some _
              |- context [collect ?p ?a ?t] =>
                let E := fresh "E" in
                destruct (collect p a t) as [? [?|]] eqn:E; cbn in H;
                [clear H|discriminate H]
            | |- context [collect ?p ?a ?t] =>
                destruct (collect p a t) as [? [?|]]
            | |- context [allow_search (archive ?c)] =>
                let A := fresh "A" in
                destruct (allow_search (archive c)) eqn:A;
                try rewrite A in SA
            end);
    try (specialize (SA eq_refl); discriminate SA);
    (do 3 eexists; split; [reflexivity|]; cbn; rewrite <- ?app_assoc;
     split; [reflexivity|]; split; [reflexivity|]; repeat constructor).
Qed.

Lemma compile_aggregates_non_object_first line after c :
  should_stop c = false -> not_a_record loads line ->
  _compile_aggregates collect total_of loads (line :: after) c
  = Raise AttributeError (set_archive (set_total 0 (archive c)) c).
Proof.
  intros S N. rewrite compile_aggregates_eq, replay_cons.
  cbn [should_stop set_archive]. rewrite S.
  now rewrite parse_line_not_a_record.
Qed.

End WorkerSpec.

(** ** The claims on sample runs *)



(** C6 on a sample: three records; the second delivery runs a
    distillation. *)
Lemma replay_matches_live_total_sample :
  exists c1 c2,
    _compile_aggregates count_collect count_of sample_loads
                        (map fst sample_records) fresh = Return tt c1 /\
    process_all count_collect echo_generate count_of broker no_size
                (map snd sample_records) fresh = Return tt c2 /\
    count_of (parser c1 Statistics) = count_of (parser c2 Statistics) /\
    (in_step count_of fresh -> total (archive c1) = total (archive c2)).
Proof.
  apply (replay_matches_live_total count_collect echo_generate count_of
           sample_loads broker no_size sample_records fresh).
  - intros p a members. reflexivity.
  - intros a tweet. reflexivity.
  - intros p a. exists a. reflexivity.
  - intros a. reflexivity.
  - intros message. reflexivity.
  - reflexivity.
  - intros r H. simpl in H.
    repeat (destruct H as [<-|H]; [exists []; split; reflexivity|]).
    destruct H.
Defined.

(** Five lines that decode to an object and two on which [json.loads]
    raises. *)
Lemma five_decoded_two_undecodable :
  exists c',
    _compile_aggregates count_collect count_of sample_loads sample_log fresh
    = Return tt c' /\
    total (archive c') = 5.
Proof.
  destruct (replay_skips_undecodable_lines count_collect count_of sample_loads
              sample_log fresh) as (c' & E & T & _).
  - intros p a members. reflexivity.
  - intros a tweet. reflexivity.
  - reflexivity.
  - reflexivity.
  - intros line H. simpl in H.
    repeat (destruct H as [<-|H];
            [first [left; exists []; reflexivity|right; reflexivity]|]).
    destruct H.
  - exists c'. split; [exact E|exact T].
Defined.

(** C8, as stated, fails: the cloud parser's [generate] raises during the
    distillation that follows the acknowledgement; processing raises, and
    the message has been acknowledged. *)
Lemma distillation_failure_after_ack :
  raised (_process_message count_collect broken_generate count_of broker
                           no_size 301 302 (JObject []) 5 fresh)
  = Some (OtherError "IOError") /\
  In (Ack 5)
     (log (final (callback count_collect broken_generate count_of broker
                           no_size 301 302 (JObject []) 5 fresh))).
Proof.
  split; [vm_compute; reflexivity|]. vm_compute. auto 10.
Qed.

(** C8, amended, on a sample: the statistics parser raises. *)
Lemma failed_collect_is_contained :
  exists c'' evs,
    callback picky_collect echo_generate count_of broker no_size
             0 0 (JObject []) 5 fresh = Return tt c'' /\
    should_stop c'' = true /\
    log c'' = log fresh ++ evs ++ [Alert (OtherError "KeyError"); Sleep 1] /\
    (In (Ack 5) evs <-> In (Generate Raw) evs).
Proof.
  apply (callback_contains_failure picky_collect echo_generate count_of
           broker no_size 0 0 (JObject []) 5 fresh (OtherError "KeyError")
           (final (_process_message picky_collect echo_generate count_of
                     broker no_size 0 0 (JObject []) 5 fresh))).
  vm_compute. reflexivity.
Defined.

(** C9 on a sample: the statistics parser raises. *)
Lemma failed_statistics_is_counted :
  exists e' c' evs c'',
    _process_message picky_collect echo_generate count_of broker no_size
                     0 0 (JObject []) 5 fresh = Raise e' c' /\
    total (archive c') = total (archive fresh) + 1 /\
    log c' = log fresh ++ evs /\ ~ In (Ack 5) evs /\
    callback picky_collect echo_generate count_of broker no_size
             0 0 (JObject []) 5 fresh = Return tt c'' /\
    total (archive c'') = total (archive fresh) + 1 /\
    should_stop c'' = true /\
    log c'' = log fresh ++ evs ++ [Alert e'; Sleep 1].
Proof.
  apply (total_counts_the_failed_record picky_collect echo_generate count_of
           broker no_size 0 0 (JObject []) 5 fresh Statistics
           (OtherError "KeyError")).
  - intros H. discriminate H.
  - reflexivity.
Defined.

(** X15 on a sample: a log whose third line decodes to a list: the two
    lines before it are replayed, the one after it is not, and cold start
    raises. *)
Lemma non_object_line_aborts_replay_sample :
  exists c',
    _compile_aggregates count_collect count_of sample_loads
                        (["{}"; "oops"]%string
                         ++ "[]"%string :: ["{}"%string]) fresh
    = Raise AttributeError c' /\
    total (archive c') = 0 /\
    log c' = log fresh
             ++ replayed sample_loads (allow_search (archive fresh))
                         ["{}"; "oops"]%string.
Proof.
  apply (non_object_line_aborts_replay count_collect count_of sample_loads
           ["{}"; "oops"]%string "[]"%string ["{}"%string] fresh).
  - intros p a members. reflexivity.
  - reflexivity.
  - intros l H. simpl in H.
    repeat (destruct H as [<-|H];
            [first [left; exists []; reflexivity|right; reflexivity]|]).
    destruct H.
  - exists (JArray []). split; [reflexivity|]. intros members. discriminate.
Defined.

(** X16 on a sample: a statistics parser that raises on the first record
    of the log. *)
Lemma cold_start_does_not_contain_parser_failure_sample :
  exists e' c' evs,
    on_consume_ready picky_collect count_of sample_loads
                     ["{}"; "{}"]%string fresh = Raise e' c' /\
    total (archive c') = 0 /\
    log c' = log fresh ++ evs /\ Forall is_collect evs.
Proof.
  apply (cold_start_does_not_contain_parser_failure picky_collect count_of
           sample_loads "{}"%string [] ["{}"%string] fresh Statistics
           (OtherError "KeyError")).
  - reflexivity.
  - reflexivity.
  - discriminate.
  - discriminate.
  - reflexivity.
Defined.

(** C7 (the code departs from the claim): a line on which [json.loads]
    raises is skipped, as the comment in [_parse_line] says a corrupted
    line has to be.  A corrupted line that still decodes, to a list, a
    string, a number or [null], is not: [tweet.get] raises
    [AttributeError] inside the [try], which catches [ValueError] only, and
    cold start raises with [total] left at 0 and nothing collected,
    whatever the parsers.  Concretely: of seven lines, five are well-formed
    and two corrupt; the first corrupt line does not decode and is skipped,
    the second decodes to a list: replay raises there, [total] is 0, not 5,
    and the three records after it are never collected. *)
Theorem replay_raises_on_decodable_non_record :
  (forall (Aggregate Snapshot : Type)
          (collect : Parser -> Aggregate -> Json
                     -> Aggregate * option Exception)
          (total_of : Aggregate -> Z) (loads : string -> option Json)
          line after (c : ArchiveConsumer Aggregate Snapshot),
      should_stop c = false -> not_a_record loads line ->
      let o := _compile_aggregates collect total_of loads (line :: after) c in
      raised o = Some AttributeError /\
      total (archive (final o)) = 0 /\
      log (final o) = log c) /\
  (let lines := ["{}"; "oops"; "{}"; "[]"; "{}"; "{}"; "{}"]%string in
   let o := _compile_aggregates count_collect count_of sample_loads lines
                                fresh in
   List.length (filter (is_record sample_loads) lines) = 5%nat /\
   malformed sample_loads "oops" /\
   not_a_record sample_loads "[]" /\
   raised o = Some AttributeError /\
   total (archive (final o)) = 0 /\
   log (final o) = feed false (JObject []) ++ feed false (JObject [])).
Proof.
  split.
  - intros Aggregate Snapshot collect total_of loads line after c S N o.
    unfold o.
    rewrite (compile_aggregates_non_object_first collect total_of loads
               line after c S N).
    repeat split.
  - cbv zeta. split; [reflexivity|]. split; [reflexivity|]. split.
    { exists (JArray []). split; [reflexivity|]. intros m. discriminate. }
    split; [vm_compute; reflexivity|]. split; vm_compute; reflexivity.
Qed.

End ConsumersProofs.
